(** * TouchHandler (ws-scrcpy): pointer ids, coordinate mapping, multi-touch
    simulation and the overlay's dirty region.

    Shallow embedding of [src/TouchHandler.ts].  The static fields of the
    class become one record that every operation threads through; canvas
    calls are collected in a list. *)

From Stdlib Require Import ZArith QArith Qcanon Qround Lqa.
From stdpp Require Import base option list numbers strings gmap.

Local Open Scope Z_scope.

(** ** JavaScript numbers

    A [number] is modelled as an exact rational, extended with the three
    special values of IEEE arithmetic.  Rounding of finite results is not
    modelled, and the negative zero is identified with zero (a division by
    zero therefore takes its sign from the dividend alone, which is what the
    source gets for the non-negative layout sizes of the DOM).  Where the
    source rounds, its result can differ from the exact one in the last
    place: a quotient that is an integer here can be a little above that
    integer there, and [Math.ceil] of it one higher.  The statements below
    that give exact values do so at inputs where the doubles are exact
    too. *)
Module JSNum.

Inductive num : Type :=
| Fin (q : Qc)
| PInf
| NInf
| NaN.

Definition ofZ (z : Z) : num := Fin (Q2Qc (inject_Z z)).
Definition ofQ (q : Q) : num := Fin (Q2Qc q).

Definition is_finite (a : num) : bool :=
  match a with Fin _ => true | _ => false end.

Inductive sign : Type := Neg | Zer | Pos.

Definition sgn (q : Qc) : sign :=
  match (Qnum (this q)) with
  | Z0 => Zer
  | Zpos _ => Pos
  | Zneg _ => Neg
  end.

Definition neg (a : num) : num :=
  match a with
  | Fin q => Fin (- q)%Qc
  | PInf => NInf
  | NInf => PInf
  | NaN => NaN
  end.

(** [a + b] *)
Definition add (a b : num) : num :=
  match a, b with
  | NaN, _ | _, NaN => NaN
  | Fin p, Fin q => Fin (p + q)%Qc
  | PInf, NInf | NInf, PInf => NaN
  | PInf, _ | _, PInf => PInf
  | NInf, _ | _, NInf => NInf
  end.

(** [a - b] *)
Definition sub (a b : num) : num := add a (neg b).

(** An infinity of the sign of [s]; [0 * Infinity] is [NaN]. *)
Definition inf_of (s : sign) : num :=
  match s with Pos => PInf | Neg => NInf | Zer => NaN end.

Definition flip (s : sign) : sign :=
  match s with Pos => Neg | Neg => Pos | Zer => Zer end.

(** [a * b] *)
Definition mul (a b : num) : num :=
  match a, b with
  | NaN, _ | _, NaN => NaN
  | Fin p, Fin q => Fin (p * q)%Qc
  | Fin p, PInf | PInf, Fin p => inf_of (sgn p)
  | Fin p, NInf | NInf, Fin p => inf_of (flip (sgn p))
  | PInf, PInf | NInf, NInf => PInf
  | PInf, NInf | NInf, PInf => NInf
  end.

(** [a / b]: a finite dividend over zero is an infinity of the dividend's
    sign, [0 / 0] and [Infinity / Infinity] are [NaN]. *)
Definition div (a b : num) : num :=
  match a, b with
  | NaN, _ | _, NaN => NaN
  | Fin p, Fin q =>
      match sgn q with
      | Zer => inf_of (sgn p)
      | _ => Fin (p / q)%Qc
      end
  | Fin _, (PInf | NInf) => Fin 0%Qc
  | PInf, Fin q => match sgn q with Neg => NInf | _ => PInf end
  | NInf, Fin q => match sgn q with Neg => PInf | _ => NInf end
  | (PInf | NInf), (PInf | NInf) => NaN
  end.

(** [a < b]; every comparison with [NaN] is false. *)
Definition lt (a b : num) : bool :=
  match a, b with
  | NaN, _ | _, NaN => false
  | Fin p, Fin q => bool_decide (p < q)%Qc
  | NInf, (Fin _ | PInf) => true
  | Fin _, PInf => true
  | _, _ => false
  end.

(** [a <= b] *)
Definition le (a b : num) : bool :=
  match a, b with
  | NaN, _ | _, NaN => false
  | Fin p, Fin q => bool_decide (p <= q)%Qc
  | NInf, _ => true
  | _, PInf => true
  | _, _ => false
  end.

(** [a > b] and [a >= b] *)
Definition gt (a b : num) : bool := lt b a.
Definition ge (a b : num) : bool := le b a.

(** [Math.round]: the nearest integer, halves going up. *)
Definition round (a : num) : num :=
  match a with
  | Fin q => ofZ (Qfloor (this q + (1 # 2)))
  | _ => a
  end.

(** [Math.ceil] *)
Definition ceil (a : num) : num :=
  match a with
  | Fin q => ofZ (Qceiling (this q))
  | _ => a
  end.

(** [Math.min] and [Math.max]: [NaN] if either argument is. *)
Definition min (a b : num) : num :=
  match a, b with
  | NaN, _ | _, NaN => NaN
  | _, _ => if le a b then a else b
  end.

Definition max (a b : num) : num :=
  match a, b with
  | NaN, _ | _, NaN => NaN
  | _, _ => if le a b then b else a
  end.

End JSNum.

Import JSNum.

Declare Scope num_scope.
Delimit Scope num_scope with num.
Bind Scope num_scope with num.
Infix "+" := JSNum.add : num_scope.
Infix "-" := JSNum.sub : num_scope.
Infix "*" := JSNum.mul : num_scope.
Infix "/" := JSNum.div : num_scope.
Infix "<?" := JSNum.lt : num_scope.
Infix "<=?" := JSNum.le : num_scope.
Infix ">?" := JSNum.gt : num_scope.
Infix ">=?" := JSNum.ge : num_scope.

(** ** Collaborators that are not part of this file *)

(** Modelled from the spec: [Point], the class of [./Point], a coordinate
    pair [{x, y}] with no behaviour beyond construction. *)
Record Point : Type := mkPoint { x : num; y : num }.

(** Modelled from the spec: [Size], the class of [./Size], the dimensions
    [{width, height}] of a space. *)
Record Size : Type := mkSize { width : num; height : num }.

(** Modelled from the spec: [Position], the class of [./Position], a point
    together with the size of the screen it is relative to. *)
Record Position : Type := mkPosition { point : Point; screenSize : Size }.

(** Modelled from the spec: [ScreenInfo], of which the handler reads the
    field [videoSize] only. *)
Record ScreenInfo : Type := mkScreenInfo { videoSize : Size }.

(** Modelled from the spec: [TouchControlEvent], the output record, built by
    [new TouchControlEvent(action, pointerId, position, pressure, buttons)]. *)
Record TouchControlEvent : Type := mkTouchControlEvent {
  tce_action : Z;
  tce_pointerId : Z;
  tce_position : Position;
  tce_pressure : num;
  tce_buttons : option Z
}.

(** The constants that the handler takes from [./MotionEvent]; their values
    are not in this file, so everything below is stated for any values. *)
Class MotionEvent : Type := {
  ACTION_DOWN : Z;
  ACTION_UP : Z;
  ACTION_MOVE : Z;
  BUTTON_TERTIARY : Z
}.

(** ** The DOM as the handler sees it *)

(** A 2d rendering context: the handler reads [lineWidth]. *)
Record Context2D : Type := mkContext2D { lineWidth : num }.

(** An element: [elemId] stands for the identity of the object, which is
    what [!==] compares; [context2d] is the result of [getContext('2d')],
    absent for an element that is not a canvas. *)
Record HTMLElement : Type := mkElement {
  elemId : nat;
  offsetLeft : num;
  offsetTop : num;
  clientWidth : num;
  clientHeight : num;
  context2d : option Context2D
}.

(** The [html] element of the document: the page's scroll offsets. *)
Record HtmlTag : Type := mkHtmlTag { scrollTop : num; scrollLeft : num }.

(** The calls made on a rendering context, in order.  An arc is always the
    full circle here, so its angles are left out. *)
Inductive CanvasOp : Type :=
| BeginPath
| Arc (cx cy radius : num)
| MoveTo (px py : num)
| LineTo (px py : num)
| Stroke
| ClearRect (rx ry rw rh : num).

(** ** The interfaces of the file *)

Record Touch : Type := mkTouch {
  action : Z;
  position : Position;
  buttons : option Z
}.

Record ClientBox : Type := mkClientBox { cb_width : num; cb_height : num }.

Record TouchOnClient : Type := mkTouchOnClient {
  client : ClientBox;
  touch : Touch
}.

(** The [target] of an event that reaches the handler is an element, never
    [null]. *)
Record CommonTouchAndMouse : Type := mkCommon {
  clientX : num;
  clientY : num;
  type : string;
  target : HTMLElement;
  button : Z
}.

(** A DOM [MouseEvent]: the common fields and the two modifier keys. *)
Record MouseEvent : Type := mkMouseEvent {
  me_common : CommonTouchAndMouse;
  ctrlKey : bool;
  shiftKey : bool
}.

(** One entry of [changedTouches]. *)
Record DomTouch : Type := mkDomTouch {
  identifier : Z;
  dt_target : HTMLElement;
  dt_clientX : num;
  dt_clientY : num;
  force : num
}.

(** A DOM [TouchEvent]. *)
Record TouchEvent : Type := mkTouchEvent {
  te_type : string;
  te_target : HTMLElement;
  changedTouches : list DomTouch
}.

(** ** The static state of the class

    [dirtyPlace] is an array in the source that is either empty or holds
    exactly the two corners [topLeft, bottomRight]: its only writer,
    [updateDirty], pushes both at once.  It is kept here as an optional
    pair. *)
Record TouchHandler : Type := mkTouchHandler {
  multiTouchActive : bool;
  multiTouchCenter : option Point;
  multiTouchShift : bool;
  dirtyPlace : option (Point * Point);
  idToPointerMap : gmap Z Z;
  pointerToIdMap : gmap Z Z
}.

Definition initial : TouchHandler :=
  mkTouchHandler false None false None ∅ ∅.

Definition set_multiTouch (a : bool) (c : option Point) (s : bool)
    (st : TouchHandler) : TouchHandler :=
  mkTouchHandler a c s (dirtyPlace st) (idToPointerMap st) (pointerToIdMap st).

Definition set_dirtyPlace (d : option (Point * Point)) (st : TouchHandler)
    : TouchHandler :=
  mkTouchHandler (multiTouchActive st) (multiTouchCenter st)
    (multiTouchShift st) d (idToPointerMap st) (pointerToIdMap st).

Definition set_maps (i2p p2i : gmap Z Z) (st : TouchHandler) : TouchHandler :=
  mkTouchHandler (multiTouchActive st) (multiTouchCenter st)
    (multiTouchShift st) (dirtyPlace st) i2p p2i.

Definition CURSOR_RADIUS : num := ofZ 10.

(** ** getPointerId *)

(** [type === 'touchend' || type === 'touchcancel'] *)
Definition isTermination (ty : string) : bool :=
  String.eqb ty "touchend" || String.eqb ty "touchcancel".

(** The loop [while (this.idToPointerMap.has(pointerId)) pointerId++], run
    for at most [fuel] iterations.  [whileHas_exit] below shows that
    [S (size m)] iterations always reach the loop's exit. *)
Fixpoint whileHas (m : gmap Z Z) (fuel : nat) (pointerId : Z) : Z :=
  match fuel with
  | O => pointerId
  | S fuel' =>
      if bool_decide (is_Some (m !! pointerId))
      then whileHas m fuel' (pointerId + 1)
      else pointerId
  end.

Definition getPointerId (ty : string) (identifier : Z) (st : TouchHandler)
    : Z * TouchHandler :=
  match idToPointerMap st !! identifier with
  | Some pointerId =>
      if isTermination ty
      then (pointerId,
            set_maps (delete identifier (idToPointerMap st))
                     (delete pointerId (pointerToIdMap st)) st)
      else (pointerId, st)
  | None =>
      let pointerId :=
        whileHas (idToPointerMap st) (S (size (idToPointerMap st))) 0 in
      (pointerId,
       set_maps (<[identifier := pointerId]> (idToPointerMap st))
                (<[pointerId := identifier]> (pointerToIdMap st)) st)
  end.

Section Handler.

Context {ME : MotionEvent}.

(** The table [BUTTONS_MAP]; an index outside it reads [undefined]. *)
Definition BUTTONS_MAP (button : Z) : option Z :=
  match button with
  | 0 => Some 17
  | 1 => Some BUTTON_TERTIARY
  | 2 => Some 26
  | _ => None
  end.

(** The table [EVENT_ACTION_MAP], read at the event's [type]; the type of a
    DOM touch or mouse event outside the table reads [undefined].  The
    names that the table inherits from [Object.prototype] are no event
    types and are not modelled: there the source reads the inherited
    member. *)
Definition EVENT_ACTION_MAP (ty : string) : option Z :=
  if String.eqb ty "touchstart" then Some ACTION_DOWN
  else if String.eqb ty "touchend" then Some ACTION_UP
  else if String.eqb ty "touchmove" then Some ACTION_MOVE
  else if String.eqb ty "touchcancel" then Some ACTION_UP
  else if String.eqb ty "mousedown" then Some ACTION_DOWN
  else if String.eqb ty "mousemove" then Some ACTION_MOVE
  else if String.eqb ty "mouseup" then Some ACTION_UP
  else None.

(** ** calculateCoordinates

    [None] is the source's [null].  The letterbox step either rejects the
    touch or yields the corrected [touchX, touchY, clientWidth,
    clientHeight], which the scaling step then reads. *)
Definition calculateCoordinates (htmlTag : HtmlTag)
    (e : CommonTouchAndMouse) (screenInfo : option ScreenInfo)
    : option TouchOnClient :=
  match EVENT_ACTION_MAP (type e), screenInfo with
  | Some action, Some screenInfo =>
      let width := width (videoSize screenInfo) in
      let height := height (videoSize screenInfo) in
      let target := target e in
      let clientWidth := clientWidth target in
      let clientHeight := clientHeight target in
      let touchX := ((clientX e - offsetLeft target) + scrollLeft htmlTag)%num in
      let touchY := ((clientY e - offsetTop target) + scrollTop htmlTag)%num in
      let eps := ofZ 100000 in
      let ratio := (width / height)%num in
      let shouldBe := round (eps * ratio) in
      let haveNow := round (eps * clientWidth / clientHeight) in
      let corrected :=
        if (shouldBe >? haveNow)%num then
          let realHeight := ceil (clientWidth / ratio) in
          let top := ((clientHeight - realHeight) / ofZ 2)%num in
          if (touchY <? top)%num || (touchY >? top + realHeight)%num
          then None
          else Some (touchX, (touchY - top)%num, clientWidth, realHeight)
        else if (shouldBe <? haveNow)%num then
          let realWidth := ceil (clientHeight * ratio) in
          let left := ((clientWidth - realWidth) / ofZ 2)%num in
          if (touchX <? left)%num || (touchX >? left + realWidth)%num
          then None
          else Some ((touchX - left)%num, touchY, realWidth, clientHeight)
        else Some (touchX, touchY, clientWidth, clientHeight) in
      match corrected with
      | None => None
      | Some (touchX, touchY, clientWidth, clientHeight) =>
          let x := (touchX * width / clientWidth)%num in
          let y := (touchY * height / clientHeight)%num in
          let size := mkSize width height in
          let point := mkPoint x y in
          let position := mkPosition point size in
          let buttons := BUTTONS_MAP (button e) in
          Some (mkTouchOnClient (mkClientBox clientWidth clientHeight)
                                (mkTouch action position buttons))
      end
  | _, _ => None
  end.

(** ** The overlay *)

Definition updateDirty (topLeft bottomRight : Point) (st : TouchHandler)
    : TouchHandler :=
  match dirtyPlace st with
  | None => set_dirtyPlace (Some (topLeft, bottomRight)) st
  | Some (currentTopLeft, currentBottomRight) =>
      let newTopLeft :=
        mkPoint (JSNum.min (x currentTopLeft) (x topLeft))
                (JSNum.min (y currentTopLeft) (y topLeft)) in
      let newBottomRight :=
        mkPoint (JSNum.max (x currentBottomRight) (x bottomRight))
                (JSNum.max (y currentBottomRight) (y bottomRight)) in
      set_dirtyPlace (Some (newTopLeft, newBottomRight)) st
  end.

Definition drawCircle (ctx : Context2D) (point : Point) (radius : num)
    (st : TouchHandler) : TouchHandler * list CanvasOp :=
  let l := lineWidth ctx in
  let topLeft := mkPoint (x point - radius - l)%num (y point - radius - l)%num in
  let bottomRight := mkPoint (x point + radius + l)%num (y point + radius + l)%num in
  (updateDirty topLeft bottomRight st,
   [BeginPath; Arc (x point) (y point) radius; Stroke]).

Definition drawLine (point1 point2 : Point) : list CanvasOp :=
  [BeginPath; MoveTo (x point1) (y point1); LineTo (x point2) (y point2);
   Stroke].

(** [clearCanvas] assigns to no field of the class: the state it returns
    is the one it was given. *)
Definition clearCanvas (target : HTMLElement) (st : TouchHandler)
    : TouchHandler * list CanvasOp :=
  let clientWidth := clientWidth target in
  let clientHeight := clientHeight target in
  match context2d target, dirtyPlace st with
  | Some ctx, Some (topLeft, bottomRight) =>
      let x0 := JSNum.max (x topLeft) (ofZ 0) in
      let y0 := JSNum.max (y topLeft) (ofZ 0) in
      let w := JSNum.min clientWidth (x bottomRight - x0)%num in
      let h := JSNum.min clientHeight (y bottomRight - y0)%num in
      (st, [ClearRect x0 y0 w h])
  | _, _ => (st, [])
  end.

(** ** getTouch

    The result is the returned array ([None] for [null]), the state of the
    class after the call and the canvas calls that were made. *)
Definition getTouch (htmlTag : HtmlTag) (e : MouseEvent)
    (screenInfo : option ScreenInfo) (st : TouchHandler)
    : option (list Touch) * TouchHandler * list CanvasOp :=
  match calculateCoordinates htmlTag (me_common e) screenInfo with
  | None => (None, st, [])
  | Some touchOnClient =>
      let client := client touchOnClient in
      let touch := touch touchOnClient in
      if negb (ctrlKey e) then
        let st := set_multiTouch false None false st in
        let '(st, ops) := clearCanvas (target (me_common e)) st in
        (Some [touch], st, ops)
      else
        let point := point (position touch) in
        let screenSize := screenSize (position touch) in
        let st :=
          if negb (multiTouchActive st) then
            if shiftKey e
            then set_multiTouch (multiTouchActive st) (Some point) true st
            else set_multiTouch (multiTouchActive st)
                   (Some (mkPoint (cb_width client / ofZ 2)%num
                                  (cb_height client / ofZ 2)%num))
                   (multiTouchShift st) st
          else st in
        let st :=
          set_multiTouch true (multiTouchCenter st) (multiTouchShift st) st in
        let opposite :=
          match multiTouchShift st, multiTouchCenter st with
          | true, Some center =>
              let oppoX := (ofZ 2 * x center - x point)%num in
              let oppoY := (ofZ 2 * y center - y point)%num in
              if (oppoX <=? width screenSize)%num && (oppoX >=? ofZ 0)%num
                 && (oppoY <=? height screenSize)%num && (oppoY >=? ofZ 0)%num
              then Some (mkPoint oppoX oppoY)
              else None
          | _, _ =>
              Some (mkPoint (cb_width client - x point)%num
                            (cb_height client - y point)%num)
          end in
        match opposite with
        | Some opposite =>
            (Some [touch;
                   mkTouch (action touch) (mkPosition opposite screenSize)
                           (buttons touch)],
             st, [])
        | None => (Some [touch], st, [])
        end
  end.

(** ** formatTouchEvent *)

(** The body of the [for] loop over [changedTouches], one contact at a
    time; [events] is the array built so far.  The diagnostics written to
    the console are not modelled. *)
Fixpoint formatTouches (htmlTag : HtmlTag) (e : TouchEvent)
    (screenInfo : option ScreenInfo) (tag : HTMLElement)
    (touches : list DomTouch) (events : list TouchControlEvent)
    (st : TouchHandler) : list TouchControlEvent * TouchHandler :=
  match touches with
  | [] => (events, st)
  | touch :: touches =>
      let '(pointerId, st) := getPointerId (te_type e) (identifier touch) st in
      if negb (Nat.eqb (elemId (dt_target touch)) (elemId tag)) then
        formatTouches htmlTag e screenInfo tag touches events st
      else
        let item :=
          mkCommon (dt_clientX touch) (dt_clientY touch) (te_type e)
                   (te_target e) 0 in
        match calculateCoordinates htmlTag item screenInfo with
        | Some (mkTouchOnClient _ (mkTouch action position buttons)) =>
            let pressure := (force touch * ofZ 255)%num in
            formatTouches htmlTag e screenInfo tag touches
              (events ++ [mkTouchControlEvent action pointerId position
                            pressure buttons]) st
        | None =>
            formatTouches htmlTag e screenInfo tag touches events st
        end
  end.

Definition formatTouchEvent (htmlTag : HtmlTag) (e : TouchEvent)
    (screenInfo : option ScreenInfo) (tag : HTMLElement)
    (st : TouchHandler) : option (list TouchControlEvent) * TouchHandler :=
  let '(events, st) :=
    formatTouches htmlTag e screenInfo tag (changedTouches e) [] st in
  match events with
  | [] => (None, st)
  | _ => (Some events, st)
  end.

(** ** buildTouchEvent *)

(** The [forEach] of [buildTouchEvent]: a circle at every touch and a line
    from it to the centre. *)
Fixpoint drawTouches (ctx : Context2D) (touches : list Touch)
    (st : TouchHandler) : TouchHandler * list CanvasOp :=
  match touches with
  | [] => (st, [])
  | touch :: touches =>
      let point := point (position touch) in
      let '(st, ops1) := drawCircle ctx point CURSOR_RADIUS st in
      let ops2 :=
        match multiTouchCenter st with
        | Some center => drawLine point center
        | None => []
        end in
      let '(st, ops3) := drawTouches ctx touches st in
      (st, ops1 ++ ops2 ++ ops3)
  end.

Definition buildTouchEvent (htmlTag : HtmlTag) (e : MouseEvent)
    (screenInfo : option ScreenInfo) (st : TouchHandler)
    : option (list TouchControlEvent) * TouchHandler * list CanvasOp :=
  match getTouch htmlTag e screenInfo st with
  | (None, st, ops) => (None, st, ops)
  | (Some touches, st, ops) =>
      let target := target (me_common e) in
      let '(st, drawn) :=
        match multiTouchActive st, context2d target with
        | true, Some ctx =>
            let '(st, ops1) := clearCanvas target st in
            let '(st, ops2) := drawTouches ctx touches st in
            match multiTouchCenter st with
            | Some center =>
                let '(st, ops3) := drawCircle ctx center (ofZ 5) st in
                (st, ops1 ++ ops2 ++ ops3)
            | None => (st, ops1 ++ ops2)
            end
        | _, _ => (st, [])
        end in
      (Some (imap (fun pointerId touch =>
                     mkTouchControlEvent (action touch) (Z.of_nat pointerId)
                       (position touch) (ofZ 255) (buttons touch))
                  touches),
       st, ops ++ drawn)
  end.

End Handler.

(** * Definitions used in the statements *)

(** A run of calls, as [formatTouchEvent] makes them one after another. *)
Definition acquireAll (calls : list (string * Z)) (st : TouchHandler)
    : TouchHandler :=
  foldl (λ st c, (getPointerId c.1 c.2 st).2) st calls.

(** No call of the run releases [id]. *)
Definition noRelease (id : Z) (calls : list (string * Z)) : Prop :=
  Forall (λ c, c.2 = id → isTermination c.1 = false) calls.

(** The two maps mirror each other. *)
Definition inverseMaps (st : TouchHandler) : Prop :=
  ∀ i p, idToPointerMap st !! i = Some p ↔ pointerToIdMap st !! p = Some i.

(** The region [[0, width] × [0, height]] of a screen. *)
Definition inScreen (p : Point) (sz : Size) : bool :=
  (x p <=? width sz)%num && (x p >=? ofZ 0)%num
  && (y p <=? height sz)%num && (y p >=? ofZ 0)%num.

(** The mirror image of [p] through [c]: [2 * c - p]. *)
Definition reflected (c p : Point) : Point :=
  mkPoint (ofZ 2 * x c - x p)%num (ofZ 2 * y c - y p)%num.

(** The touch relative to the target's box, as [calculateCoordinates]
    computes it before any correction. *)
Definition touchXOf (htmlTag : HtmlTag) (c : CommonTouchAndMouse) : num :=
  ((clientX c - offsetLeft (target c)) + scrollLeft htmlTag)%num.

Definition touchYOf (htmlTag : HtmlTag) (c : CommonTouchAndMouse) : num :=
  ((clientY c - offsetTop (target c)) + scrollTop htmlTag)%num.

(** The two sides of the aspect comparison. *)
Definition shouldBeOf (video : Size) : num :=
  round (ofZ 100000 * (width video / height video)).

Definition haveNowOf (tgt : HTMLElement) : num :=
  round (ofZ 100000 * clientWidth tgt / clientHeight tgt).

(** Neither coordinate is a finite number. *)
Definition nonFinitePoint (p : Point) : Prop :=
  is_finite (x p) = false ∧ is_finite (y p) = false.

(** Following the spec's words: the intersection of the tracked region
    [topLeft .. bottomRight] with the drawable bounds
    [[0, clientWidth] × [0, clientHeight]] of the surface, given as the
    rectangle's corner and its width and height. *)
Definition boundsIntersection (topLeft bottomRight : Point) (tgt : HTMLElement)
    : num * num * num * num :=
  let x0 := JSNum.max (x topLeft) (ofZ 0) in
  let y0 := JSNum.max (y topLeft) (ofZ 0) in
  let x1 := JSNum.min (x bottomRight) (clientWidth tgt) in
  let y1 := JSNum.min (y bottomRight) (clientHeight tgt) in
  (x0, y0, (x1 - x0)%num, (y1 - y0)%num).

(** The calls to [getPointerId] that a batch of contacts stands for. *)
Definition callsOf (e : TouchEvent) (touches : list DomTouch)
    : list (string * Z) :=
  map (λ t, (te_type e, identifier t)) touches.

(** The contacts of a batch that are on the given element. *)
Definition onTarget (tag : HTMLElement) (touches : list DomTouch)
    : list DomTouch :=
  filter (λ t, elemId (dt_target t) = elemId tag) touches.

(** ** Values for the worked examples *)

(** The values the constants of [./MotionEvent] have in the Android
    framework; the examples below are evaluated with them. *)
Definition androidMotionEvent : MotionEvent :=
  {| ACTION_DOWN := 0; ACTION_UP := 1; ACTION_MOVE := 2; BUTTON_TERTIARY := 4 |}.

(** A canvas at the page's origin with the given client box and a stroke
    width of 1. *)
Definition canvasOf (id : nat) (w h : Z) : HTMLElement :=
  mkElement id (ofZ 0) (ofZ 0) (ofZ w) (ofZ h) (Some (mkContext2D (ofZ 1))).

Definition unscrolled : HtmlTag := mkHtmlTag (ofZ 0) (ofZ 0).

Definition fullHD : ScreenInfo := mkScreenInfo (mkSize (ofZ 1920) (ofZ 1080)).

Definition squareVideo : ScreenInfo :=
  mkScreenInfo (mkSize (ofZ 1000) (ofZ 1000)).

(** A mouse move at the client point [(cx, cy)] over [tgt]. *)
Definition mouseMove (cx cy : Z) (tgt : HTMLElement) (ctrl shift : bool)
    : MouseEvent :=
  mkMouseEvent (mkCommon (ofZ cx) (ofZ cy) "mousemove" tgt 0) ctrl shift.

(** The points of the touches of a result. *)
Definition pointsOf (r : option (list Touch)) : option (list Point) :=
  map (λ t, point (position t)) <$> r.

(** The state after one cursor circle has been drawn at [(95, 95)] with a
    stroke of width 1: the tracked region is [(84, 84) .. (106, 106)]. *)
Definition afterCircle : TouchHandler :=
  (drawCircle (mkContext2D (ofZ 1)) (mkPoint (ofZ 95) (ofZ 95)) CURSOR_RADIUS
     initial).1.

(** ** Definitions for the further properties *)

(** Every entry of [pointerToIdMap] has its mirror image in
    [idToPointerMap]. *)
Definition mirrored (st : TouchHandler) : Prop :=
  ∀ p i, pointerToIdMap st !! p = Some i → idToPointerMap st !! i = Some p.

(** No pointer id on record is negative. *)
Definition idsNonNegative (st : TouchHandler) : Prop :=
  ∀ i p, idToPointerMap st !! i = Some p → 0 ≤ p.

(** The simulation has a centre exactly while it is active, and is anchored
    by shift only while it is active. *)
Definition simulationConsistent (st : TouchHandler) : Prop :=
  if multiTouchActive st then is_Some (multiTouchCenter st)
  else multiTouchCenter st = None ∧ multiTouchShift st = false.

(** Both coordinates are finite numbers. *)
Definition finitePoint (p : Point) : bool :=
  is_finite (x p) && is_finite (y p).

(** The box [inner] lies within the box [outer]; a box is its top-left and
    its bottom-right corner. *)
Definition boxWithin (inner outer : Point * Point) : bool :=
  (x outer.1 <=? x inner.1)%num && (y outer.1 <=? y inner.1)%num
  && (x inner.2 <=? x outer.2)%num && (y inner.2 <=? y outer.2)%num.

(** The raw identifiers of a batch of contacts. *)
Definition identifiersOf (touches : list DomTouch) : list Z :=
  map identifier touches.

(** What an event of a batch is made of: the force of a contact of the
    batch that is on the element, the action of the event's type, the
    buttons of index 0 and the size of the video. *)
Definition fromBatch {ME : MotionEvent} (e : TouchEvent)
    (screenInfo : option ScreenInfo) (tag : HTMLElement)
    (ev : TouchControlEvent) : Prop :=
  ∃ t, t ∈ changedTouches e ∧ elemId (dt_target t) = elemId tag ∧
       tce_pressure ev = (force t * ofZ 255)%num ∧
       EVENT_ACTION_MAP (te_type e) = Some (tce_action ev) ∧
       tce_buttons ev = Some 17 ∧
       videoSize <$> screenInfo = Some (screenSize (tce_position ev)).

(** The names that every object inherits from [Object.prototype].  Read at
    one of them, the table of the source answers the inherited member and
    not [undefined]; an event type is never one of them. *)
Definition objectPrototypeNames : list string :=
  ["constructor"; "toString"; "toLocaleString"; "valueOf"; "hasOwnProperty";
   "isPrototypeOf"; "propertyIsEnumerable"; "__proto__"; "__defineGetter__";
   "__defineSetter__"; "__lookupGetter__"; "__lookupSetter__"]%string.

(** ** Tactics *)

(** Equalities between evaluated numbers: rationals in lowest terms are
    equal when their fractions are. *)
Ltac num_eq :=
  solve [repeat match goal with
    | |- @eq Qc _ _ => apply Qc_is_canon; vm_compute; reflexivity
    | |- Fin _ = Fin _ => apply (f_equal Fin)
    | |- _ = _ => reflexivity
    | |- _ ∧ _ => split
    | |- _ = _ => f_equal
    end].

(** Order and sums of [Qc], restated on the underlying fractions. *)
Ltac qc_to_q :=
  unfold Qcle, Qclt, Qcplus, Qcopp, Qcminus, Q2Qc in *; simpl in *;
  rewrite ?Qred_correct in *.

(** The same with products and quotients. *)
Ltac qc_arith :=
  unfold Qcle, Qclt, Qcdiv, Qcinv, Qcmult, Qcplus, Qcopp, Qcminus, Q2Qc in *;
  simpl in *; rewrite ?Qred_correct in *.

(** * Properties *)

(** ** The pointer-id allocator *)

Section Allocator.

Implicit Types (m : gmap Z Z) (st : TouchHandler) (ty : string).

(** The search moves upwards through mapped keys only, and stops either
    on a free key or because the fuel has run out. *)
Lemma whileHas_scan m fuel p :
  p ≤ whileHas m fuel p ∧
  (∀ q, p ≤ q < whileHas m fuel p → is_Some (m !! q)) ∧
  (m !! whileHas m fuel p = None ∨ whileHas m fuel p = p + Z.of_nat fuel).
Proof.
  revert p. induction fuel as [|fuel IH]; intros p; simpl.
  - split; [lia|]. split; [intros q Hq; lia|]. right. lia.
  - case_bool_decide as Hp.
    + destruct (IH (p + 1)) as (Hle & Hbelow & Hstop).
      split; [lia|]. split.
      * intros q Hq. destruct (decide (q = p)) as [->|Hne]; [done|].
        apply Hbelow. lia.
      * destruct Hstop as [Hfree|Hend]; [by left|right; lia].
    + split; [lia|]. split; [intros q Hq; lia|].
      left. by apply eq_None_not_Some.
Qed.

(** A map that holds [n] consecutive keys has at least [n] entries. *)
Lemma consecutive_keys_size m p (n : nat) :
  (∀ q, p ≤ q < p + Z.of_nat n → is_Some (m !! q)) → (n ≤ size m)%nat.
Proof.
  intros Hall.
  pose (X := list_to_set (seqZ p (Z.of_nat n)) : gset Z).
  assert (HX : X ⊆ dom m).
  { intros q Hq. apply elem_of_list_to_set, elem_of_seqZ in Hq.
    apply elem_of_dom. by apply Hall. }
  apply subseteq_size in HX. rewrite size_dom in HX.
  unfold X in HX. rewrite size_list_to_set in HX by apply NoDup_seqZ.
  rewrite length_seqZ in HX. lia.
Qed.

(** With one more iteration than the map has entries, the loop always
    leaves through its exit test. *)
Lemma whileHas_exit m : m !! whileHas m (S (size m)) 0 = None.
Proof.
  destruct (whileHas_scan m (S (size m)) 0) as (_ & Hbelow & [Hfree|Hend]);
    [done|].
  rewrite Hend in Hbelow.
  apply consecutive_keys_size in Hbelow. lia.
Qed.

Lemma whileHas_lowest m :
  0 ≤ whileHas m (S (size m)) 0 ∧
  ∀ q, 0 ≤ q < whileHas m (S (size m)) 0 → is_Some (m !! q).
Proof.
  destruct (whileHas_scan m (S (size m)) 0) as (Hle & Hbelow & _). done.
Qed.

(** The two branches of [getPointerId]. *)
Lemma getPointerId_mapped ty id p st :
  idToPointerMap st !! id = Some p →
  getPointerId ty id st =
    (p, if isTermination ty
        then set_maps (delete id (idToPointerMap st))
                      (delete p (pointerToIdMap st)) st
        else st).
Proof. intros H. unfold getPointerId. rewrite H. by destruct (isTermination ty). Qed.

Lemma getPointerId_unmapped ty id st :
  idToPointerMap st !! id = None →
  getPointerId ty id st =
    (whileHas (idToPointerMap st) (S (size (idToPointerMap st))) 0,
     set_maps
       (<[id := whileHas (idToPointerMap st) (S (size (idToPointerMap st))) 0]>
          (idToPointerMap st))
       (<[whileHas (idToPointerMap st) (S (size (idToPointerMap st))) 0 := id]>
          (pointerToIdMap st)) st).
Proof. intros H. unfold getPointerId. by rewrite H. Qed.

(** A call that does not release [id] leaves its entry where it is. *)
Lemma getPointerId_keeps ty j id p st :
  (j = id → isTermination ty = false) →
  idToPointerMap st !! id = Some p →
  idToPointerMap (getPointerId ty j st).2 !! id = Some p.
Proof.
  intros Hrel Hid. unfold getPointerId.
  destruct (idToPointerMap st !! j) as [pj|] eqn:Hj.
  - destruct (isTermination ty) eqn:Hty; simpl; [|done].
    destruct (decide (j = id)) as [->|Hne].
    + specialize (Hrel eq_refl). congruence.
    + by rewrite lookup_delete_ne.
  - simpl. destruct (decide (j = id)) as [->|Hne]; [congruence|].
    by rewrite lookup_insert_ne.
Qed.

Lemma acquireAll_keeps calls id p st :
  noRelease id calls →
  idToPointerMap st !! id = Some p →
  idToPointerMap (acquireAll calls st) !! id = Some p.
Proof.
  intros Hcalls. revert st.
  induction Hcalls as [|[ty j] calls Hc _ IH]; intros st Hid; [done|].
  simpl. apply IH. by apply getPointerId_keeps.
Qed.

End Allocator.

(** C1 (the code departs from the claim).  Two contacts with the raw
    identifiers 5 and 7 start one after the other.  The search for a free
    pointer id tests the keys of [idToPointerMap], which are raw
    identifiers, so the second contact is given pointer id 0 while the first
    still holds it: the maps are no longer inverses of each other, and the
    new id is not the smallest one out of use.  When the first contact then
    ends, pointer id 0 leaves [pointerToIdMap] although the second contact
    still holds it. *)
Theorem getPointerId_reuses_held_id :
  let r1 := getPointerId "touchstart" 5 initial in
  let r2 := getPointerId "touchstart" 7 r1.2 in
  let r3 := getPointerId "touchend" 5 r2.2 in
  r1.1 = 0 ∧ pointerToIdMap r1.2 !! 0 = Some 5 ∧
  r2.1 = 0 ∧
  idToPointerMap r2.2 !! 5 = Some 0 ∧ idToPointerMap r2.2 !! 7 = Some 0 ∧
  pointerToIdMap r2.2 !! 0 = Some 7 ∧
  ¬ inverseMaps r2.2 ∧
  r3.1 = 0 ∧ idToPointerMap r3.2 !! 7 = Some 0 ∧
  pointerToIdMap r3.2 !! 0 = None ∧
  ¬ inverseMaps r3.2.
Proof.
  cbv zeta. repeat split; try (vm_compute; reflexivity).
  - intros Hinv. specialize (Hinv 5 0).
    assert (H5 : idToPointerMap
              (getPointerId "touchstart" 7
                 (getPointerId "touchstart" 5 initial).2).2
              !! 5 = Some 0) by (vm_compute; reflexivity).
    apply Hinv in H5. vm_compute in H5. discriminate H5.
  - intros Hinv. specialize (Hinv 7 0).
    assert (H7 : idToPointerMap
              (getPointerId "touchend" 5
                 (getPointerId "touchstart" 7
                    (getPointerId "touchstart" 5 initial).2).2).2
              !! 7 = Some 0) by (vm_compute; reflexivity).
    apply Hinv in H7. vm_compute in H7. discriminate H7.
Qed.



(** The allocating branch under a terminating call, as written: the id is
    the first number from 0 that is not a key of [idToPointerMap] (no
    pointer id in use, when every pointer id in use is also such a key),
    both maps receive the new entry, and nothing removes it before the call
    returns.  The entry of [idToPointerMap] stays through every later run of
    calls that does not release the identifier, and the next terminating
    call for it answers the same id and removes it. *)
Theorem getPointerId_terminal_allocates ty id st :
  isTermination ty = true →
  idToPointerMap st !! id = None →
  let p := (getPointerId ty id st).1 in
  let st' := (getPointerId ty id st).2 in
  0 ≤ p ∧ idToPointerMap st !! p = None ∧
  (∀ q, 0 ≤ q < p → is_Some (idToPointerMap st !! q)) ∧
  ((∀ q, is_Some (pointerToIdMap st !! q) → is_Some (idToPointerMap st !! q)) →
     pointerToIdMap st !! p = None) ∧
  idToPointerMap st' = <[id := p]> (idToPointerMap st) ∧
  pointerToIdMap st' = <[p := id]> (pointerToIdMap st) ∧
  idToPointerMap st' !! id = Some p ∧
  pointerToIdMap st' !! p = Some id ∧
  (∀ calls, noRelease id calls →
     idToPointerMap (acquireAll calls st') !! id = Some p) ∧
  (∀ ty', isTermination ty' = true →
     (getPointerId ty' id st').1 = p ∧
     idToPointerMap (getPointerId ty' id st').2 !! id = None).
Proof.
  intros Hty Hid. rewrite (getPointerId_unmapped ty id st Hid). simpl.
  set (p := whileHas (idToPointerMap st) (S (size (idToPointerMap st))) 0).
  destruct (whileHas_lowest (idToPointerMap st)) as [Hp0 Hbelow].
  pose proof (whileHas_exit (idToPointerMap st)) as Hfree. fold p in Hfree.
  assert (Hnew : <[id := p]> (idToPointerMap st) !! id = Some p)
    by apply lookup_insert_eq.
  split; [exact Hp0|]. split; [exact Hfree|]. split; [exact Hbelow|].
  split.
  { intros Hkeys. apply eq_None_not_Some. intros Hused.
    destruct (Hkeys p Hused) as [v Hv]. congruence. }
  split; [done|]. split; [done|]. split; [exact Hnew|].
  split; [apply lookup_insert_eq|]. split.
  - intros calls Hcalls. by apply acquireAll_keeps.
  - intros ty' Hty'.
    rewrite (getPointerId_mapped ty' id p (set_maps _ _ st) Hnew), Hty'. simpl.
    split; [done|]. apply lookup_delete_eq.
Qed.

Lemma getPointerId_terminal_allocates_witness :
  isTermination "touchend" = true ∧
  idToPointerMap initial !! 3 = None ∧
  (getPointerId "touchend" 3 initial).1 = 0 ∧
  idToPointerMap (getPointerId "touchend" 3 initial).2 !! 3 = Some 0 ∧
  pointerToIdMap (getPointerId "touchend" 3 initial).2 !! 0 = Some 3.
Proof.
  destruct (getPointerId_terminal_allocates "touchend" 3 initial eq_refl eq_refl)
    as (_ & _ & _ & _ & _ & _ & H6 & H7 & _).
  split; [reflexivity|]. split; [reflexivity|].
  split; [vm_compute; reflexivity|]. split; [exact H6|exact H7].
Defined.

(** C10 (the code departs from the claim).  Identifier 5 holds pointer id 0
    when a terminating call arrives for identifier 7, which is not mapped.
    The call allocates and keeps the entry, but the search tests the keys of
    [idToPointerMap]: the id it finds is 0, which is not fresh, and the
    reverse entry of 0 now names 7.  When 5 is then released, that reverse
    entry is deleted although 7 was not terminated again. *)
Theorem getPointerId_terminal_takes_held_id :
  let st1 := (getPointerId "touchstart" 5 initial).2 in
  let r := getPointerId "touchend" 7 st1 in
  let r' := getPointerId "touchend" 5 r.2 in
  idToPointerMap st1 !! 7 = None ∧
  idToPointerMap st1 !! 5 = Some 0 ∧ pointerToIdMap st1 !! 0 = Some 5 ∧
  r.1 = 0 ∧
  idToPointerMap r.2 !! 7 = Some 0 ∧ idToPointerMap r.2 !! 5 = Some 0 ∧
  pointerToIdMap r.2 !! 0 = Some 7 ∧
  noRelease 7 [("touchend", 5)]%string ∧
  r'.1 = 0 ∧
  idToPointerMap r'.2 !! 7 = Some 0 ∧ pointerToIdMap r'.2 !! 0 = None.
Proof.
  cbv zeta. repeat split; try (vm_compute; reflexivity).
  repeat constructor. simpl. intros; lia.
Qed.

(** ** The coordinate mapping and the simulator *)

Section Simulator.

Context {ME : MotionEvent}.

Implicit Types (st : TouchHandler) (e : MouseEvent) (toc : TouchOnClient).

(** What a successful mapping says about its arguments and its result. *)
Lemma calculateCoordinates_Some htmlTag c screenInfo toc :
  calculateCoordinates htmlTag c screenInfo = Some toc →
  ∃ si a, screenInfo = Some si ∧ EVENT_ACTION_MAP (type c) = Some a ∧
          action (touch toc) = a ∧
          screenSize (position (touch toc)) = videoSize si ∧
          buttons (touch toc) = BUTTONS_MAP (button c).
Proof.
  unfold calculateCoordinates.
  destruct (EVENT_ACTION_MAP (type c)) as [a|]; [|discriminate].
  destruct screenInfo as [si|]; [|discriminate].
  intros H. exists si, a.
  match type of H with
  | match ?corr with _ => _ end = _ => destruct corr as [[[[tx ty] cw] ch]|]
  end; [|discriminate].
  injection H as <-. simpl. by destruct (videoSize si).
Qed.

(** An event that does not map is answered [null] before the simulator is
    reached: nothing is drawn and the state is as it was. *)
Lemma getTouch_unmapped htmlTag e screenInfo st :
  calculateCoordinates htmlTag (me_common e) screenInfo = None →
  getTouch htmlTag e screenInfo st = (None, st, []).
Proof. intros Hcalc. unfold getTouch. by rewrite Hcalc. Qed.

Lemma clearCanvas_state tgt st : (clearCanvas tgt st).1 = st.
Proof.
  unfold clearCanvas.
  destruct (context2d tgt); [|done]. by destruct (dirtyPlace st) as [[? ?]|].
Qed.

(** C8, as the code has it.  [ctrl] is not held.  When the event maps to a
    touch, the result is that one touch and nothing else, whatever the
    simulation state was, and the state leaves with the simulation stopped:
    not active, no centre, no shift anchoring; the canvas receives the calls
    of [clearCanvas].  When the event does not map, the answer is [null]:
    no touch is returned, nothing is drawn and the simulation state is left
    as it was.  In neither case is a second touch returned. *)
Theorem getTouch_without_ctrl htmlTag e screenInfo st :
  ctrlKey e = false →
  match calculateCoordinates htmlTag (me_common e) screenInfo with
  | Some toc =>
      getTouch htmlTag e screenInfo st =
        (Some [touch toc], set_multiTouch false None false st,
         (clearCanvas (target (me_common e))
            (set_multiTouch false None false st)).2)
      ∧ multiTouchActive (getTouch htmlTag e screenInfo st).1.2 = false
      ∧ multiTouchCenter (getTouch htmlTag e screenInfo st).1.2 = None
      ∧ multiTouchShift (getTouch htmlTag e screenInfo st).1.2 = false
  | None => getTouch htmlTag e screenInfo st = (None, st, [])
  end.
Proof.
  intros Hctrl.
  destruct (calculateCoordinates htmlTag (me_common e) screenInfo)
    as [toc|] eqn:Hcalc; [|by apply getTouch_unmapped].
  assert (Hget : getTouch htmlTag e screenInfo st =
    (Some [touch toc], set_multiTouch false None false st,
     (clearCanvas (target (me_common e)) (set_multiTouch false None false st)).2)).
  { unfold getTouch. rewrite Hcalc, Hctrl. simpl.
    pose proof (clearCanvas_state (target (me_common e))
                  (set_multiTouch false None false st)) as Hst.
    destruct (clearCanvas _ _) as [st1 ops]. simpl in *. by subst st1. }
  rewrite Hget. done.
Qed.

(** C7.  [ctrl] is held, the event maps to a touch at [p], and the
    simulation is anchored by shift at the centre [c]: either it was
    already running so, or it starts now with shift held, and then [c] is
    [p] itself.  The opposite point is [2 * c - p] in the coordinates of
    the video; the second contact is returned when that point is within
    [[0, videoWidth] × [0, videoHeight]], and the first touch alone when it
    is not. *)
Theorem getTouch_shift_anchored htmlTag e si st toc c :
  ctrlKey e = true →
  calculateCoordinates htmlTag (me_common e) (Some si) = Some toc →
  (multiTouchActive st = true ∧ multiTouchShift st = true ∧
   multiTouchCenter st = Some c)
  ∨ (multiTouchActive st = false ∧ shiftKey e = true ∧
     c = point (position (touch toc))) →
  let opposite := reflected c (point (position (touch toc))) in
  getTouch htmlTag e (Some si) st =
    (Some (if inScreen opposite (videoSize si)
           then [touch toc;
                 mkTouch (action (touch toc))
                         (mkPosition opposite (videoSize si))
                         (buttons (touch toc))]
           else [touch toc]),
     set_multiTouch true (Some c) true st, []).
Proof.
  intros Hctrl Hcalc Hmode opposite.
  destruct (calculateCoordinates_Some _ _ _ _ Hcalc)
    as (si' & a & [= <-] & _ & _ & Hsize & _).
  unfold getTouch. rewrite Hcalc, Hctrl. simpl.
  destruct Hmode as [(Hact & Hshift & Hcen) | (Hact & Hkey & ->)].
  - rewrite Hact. simpl. rewrite Hshift, Hcen, Hsize.
    fold (reflected c (point (position (touch toc)))). fold opposite.
    unfold inScreen. simpl.
    by destruct (_ && _).
  - rewrite Hact, Hkey. simpl. rewrite Hsize.
    fold (reflected (point (position (touch toc))) (point (position (touch toc)))).
    fold opposite. unfold inScreen. simpl.
    by destruct (_ && _).
Qed.

(** The centre-anchored branch as written.  [ctrl] is held, the event maps
    to a touch at [(x, y)], given in the coordinates of the video, and the
    simulation is not anchored by shift (it was running so, or it starts
    now without shift).  The opposite point is the size of the corrected
    client box minus the point, [(client.width - x, client.height - y)],
    and the second contact is returned with it in every case, with the
    action and the buttons of the first; no test on the range is made. *)
Theorem getTouch_center_anchored htmlTag e si st toc :
  ctrlKey e = true →
  calculateCoordinates htmlTag (me_common e) (Some si) = Some toc →
  multiTouchShift st = false →
  multiTouchActive st = true ∨ shiftKey e = false →
  let p := point (position (touch toc)) in
  let opposite :=
    mkPoint (cb_width (client toc) - x p)%num
            (cb_height (client toc) - y p)%num in
  let center :=
    if multiTouchActive st then multiTouchCenter st
    else Some (mkPoint (cb_width (client toc) / ofZ 2)%num
                       (cb_height (client toc) / ofZ 2)%num) in
  getTouch htmlTag e (Some si) st =
    (Some [touch toc;
           mkTouch (action (touch toc)) (mkPosition opposite (videoSize si))
                   (buttons (touch toc))],
     set_multiTouch true center false st, []).
Proof.
  intros Hctrl Hcalc Hshift Hmode p opposite center.
  destruct (calculateCoordinates_Some _ _ _ _ Hcalc)
    as (si' & a & [= <-] & _ & _ & Hsize & _).
  unfold getTouch. rewrite Hcalc, Hctrl. simpl.
  subst center. destruct (multiTouchActive st) eqn:Hact; simpl.
  - rewrite Hshift, Hsize. done.
  - destruct Hmode as [?|Hkey]; [discriminate|].
    rewrite Hkey. simpl. rewrite Hshift, Hsize. done.
Qed.

End Simulator.

(** C3 (the code departs from the claim).  A 960 × 540 canvas shows a
    1920 × 1080 video, so no letterbox applies.  With [ctrl] held and no
    simulation running, the mouse at the client point [(900, 500)] maps to
    the device point [(1800, 1000)].  The opposite point subtracts that
    device point from the size of the client box, [(960 - 1800, 540 -
    1000)]; it is returned as the second contact, tagged with the size of
    the video, and lies outside the video. *)
Lemma center_anchored_leaves_video :
  let r := getTouch (ME := androidMotionEvent) unscrolled
             (mouseMove 900 500 (canvasOf 1 960 540) true false)
             (Some fullHD) initial in
  pointsOf r.1.1 =
    Some [mkPoint (ofZ 1800) (ofZ 1000); mkPoint (ofZ (-840)) (ofZ (-460))]
  ∧ inScreen (mkPoint (ofZ (-840)) (ofZ (-460))) (videoSize fullHD) = false.
Proof. cbv zeta. split; [vm_compute; num_eq | vm_compute; reflexivity]. Qed.

Lemma getTouch_center_anchored_witness :
  let e := mouseMove 900 500 (canvasOf 1 960 540) true false in
  ctrlKey e = true ∧ multiTouchShift initial = false ∧ shiftKey e = false ∧
  length <$> (getTouch (ME := androidMotionEvent) unscrolled e
                (Some fullHD) initial).1.1 = Some 2%nat.
Proof.
  cbv zeta.
  destruct (calculateCoordinates (ME := androidMotionEvent) unscrolled
              (me_common (mouseMove 900 500 (canvasOf 1 960 540) true false))
              (Some fullHD)) as [toc|] eqn:Hcalc;
    [|vm_compute in Hcalc; discriminate Hcalc].
  rewrite (getTouch_center_anchored (ME := androidMotionEvent) unscrolled
             (mouseMove 900 500 (canvasOf 1 960 540) true false)
             fullHD initial toc eq_refl Hcalc eq_refl (or_intror eq_refl)).
  repeat split.
Defined.

(** C8, the counterexample.  A shift-anchored simulation is running.  A
    mouse move without [ctrl] over the upper bar of a letterboxed video does
    not map: the answer is [null] and the simulation is still active, with
    its centre and its anchoring. *)
Lemma getTouch_without_ctrl_over_bar :
  let e := mouseMove 500 100 (canvasOf 1 1000 1000) false false in
  let st := set_multiTouch true (Some (mkPoint (ofZ 960) (ofZ 540))) true
              initial in
  ctrlKey e = false ∧
  getTouch (ME := androidMotionEvent) unscrolled e (Some fullHD) st
  = (None, st, []) ∧
  multiTouchActive (getTouch (ME := androidMotionEvent) unscrolled e
                      (Some fullHD) st).1.2 = true ∧
  multiTouchShift (getTouch (ME := androidMotionEvent) unscrolled e
                     (Some fullHD) st).1.2 = true.
Proof. cbv zeta. repeat split; vm_compute; reflexivity. Qed.

Lemma getTouch_without_ctrl_witness :
  let mapped := mouseMove 900 500 (canvasOf 1 960 540) false false in
  let overBar := mouseMove 500 100 (canvasOf 1 1000 1000) false false in
  let st := set_multiTouch true (Some (mkPoint (ofZ 480) (ofZ 270))) true initial in
  ctrlKey mapped = false ∧ ctrlKey overBar = false ∧
  length <$> (getTouch (ME := androidMotionEvent) unscrolled mapped
                (Some fullHD) st).1.1 = Some 1%nat ∧
  multiTouchActive (getTouch (ME := androidMotionEvent) unscrolled mapped
                      (Some fullHD) st).1.2 = false ∧
  getTouch (ME := androidMotionEvent) unscrolled overBar (Some fullHD) st
  = (None, st, []).
Proof.
  cbv zeta.
  pose proof (getTouch_without_ctrl (ME := androidMotionEvent) unscrolled
                (mouseMove 900 500 (canvasOf 1 960 540) false false)
                (Some fullHD)
                (set_multiTouch true (Some (mkPoint (ofZ 480) (ofZ 270))) true
                   initial) eq_refl) as Hmapped.
  pose proof (getTouch_without_ctrl (ME := androidMotionEvent) unscrolled
                (mouseMove 500 100 (canvasOf 1 1000 1000) false false)
                (Some fullHD)
                (set_multiTouch true (Some (mkPoint (ofZ 480) (ofZ 270))) true
                   initial) eq_refl) as Hbar.
  destruct (calculateCoordinates (ME := androidMotionEvent) unscrolled
              (me_common (mouseMove 900 500 (canvasOf 1 960 540) false false))
              (Some fullHD)) as [toc|] eqn:Hcalc;
    [|vm_compute in Hcalc; discriminate Hcalc].
  destruct (calculateCoordinates (ME := androidMotionEvent) unscrolled
              (me_common (mouseMove 500 100 (canvasOf 1 1000 1000) false false))
              (Some fullHD)) as [toc'|] eqn:Hcalc';
    [vm_compute in Hcalc'; discriminate Hcalc'|].
  destruct Hmapped as (Hget & Hact & _).
  split; [reflexivity|]. split; [reflexivity|].
  split; [by rewrite Hget|]. split; [exact Hact|exact Hbar].
Defined.

(** A reflection that leaves the video: centre [(100, 100)] in a
    1000 × 1000 video and the mouse at [(900, 900)] give [(-700, -700)], and
    the first touch is returned alone. *)
Example shift_anchored_outside :
  let e := mouseMove 900 900 (canvasOf 1 1000 1000) true false in
  let st := set_multiTouch true (Some (mkPoint (ofZ 100) (ofZ 100))) true initial in
  reflected (mkPoint (ofZ 100) (ofZ 100)) (mkPoint (ofZ 900) (ofZ 900))
  = mkPoint (ofZ (-700)) (ofZ (-700)) ∧
  pointsOf (getTouch (ME := androidMotionEvent) unscrolled e
              (Some squareVideo) st).1.1
  = Some [mkPoint (ofZ 900) (ofZ 900)].
Proof. cbv zeta. split; vm_compute; num_eq. Qed.

(** The example of the shift-anchored reflection: centre [(500, 500)] in a
    1000 × 1000 video, mouse at [(600, 600)]. *)
Lemma getTouch_shift_anchored_witness :
  let e := mouseMove 600 600 (canvasOf 1 1000 1000) true false in
  let st := set_multiTouch true (Some (mkPoint (ofZ 500) (ofZ 500))) true initial in
  ctrlKey e = true ∧ multiTouchActive st = true ∧ multiTouchShift st = true ∧
  pointsOf (getTouch (ME := androidMotionEvent) unscrolled e
              (Some squareVideo) st).1.1
  = Some [mkPoint (ofZ 600) (ofZ 600); mkPoint (ofZ 400) (ofZ 400)].
Proof.
  cbv zeta.
  destruct (calculateCoordinates (ME := androidMotionEvent) unscrolled
              (me_common (mouseMove 600 600 (canvasOf 1 1000 1000) true false))
              (Some squareVideo)) as [toc|] eqn:Hcalc;
    [|vm_compute in Hcalc; discriminate Hcalc].
  rewrite (getTouch_shift_anchored (ME := androidMotionEvent) unscrolled
             (mouseMove 600 600 (canvasOf 1 1000 1000) true false)
             squareVideo
             (set_multiTouch true (Some (mkPoint (ofZ 500) (ofZ 500))) true initial)
             toc (mkPoint (ofZ 500) (ofZ 500)) eq_refl Hcalc
             (or_introl (conj eq_refl (conj eq_refl eq_refl)))).
  split; [reflexivity|]. split; [reflexivity|]. split; [reflexivity|].
  vm_compute in Hcalc. injection Hcalc as <-. vm_compute. num_eq.
Defined.

(** ** Letterboxing *)

Section Letterbox.

Context {ME : MotionEvent}.

(** The branch taken when the video is relatively wider than the target:
    bars above and below. *)
Lemma calculateCoordinates_bars_above_below htmlTag c si a :
  EVENT_ACTION_MAP (type c) = Some a →
  (shouldBeOf (videoSize si) >? haveNowOf (target c))%num = true →
  let ratio := (width (videoSize si) / height (videoSize si))%num in
  let realHeight := ceil (clientWidth (target c) / ratio) in
  let top := ((clientHeight (target c) - realHeight) / ofZ 2)%num in
  calculateCoordinates htmlTag c (Some si) =
    if (touchYOf htmlTag c <? top)%num
       || (touchYOf htmlTag c >? top + realHeight)%num
    then None
    else Some (mkTouchOnClient
                 (mkClientBox (clientWidth (target c)) realHeight)
                 (mkTouch a
                    (mkPosition
                       (mkPoint (touchXOf htmlTag c * width (videoSize si)
                                 / clientWidth (target c))%num
                                ((touchYOf htmlTag c - top)
                                 * height (videoSize si) / realHeight)%num)
                       (mkSize (width (videoSize si)) (height (videoSize si))))
                    (BUTTONS_MAP (button c)))).
Proof.
  intros Ha Hwide ratio realHeight top.
  unfold calculateCoordinates. rewrite Ha.
  unfold shouldBeOf, haveNowOf in Hwide. rewrite Hwide.
  fold ratio. fold realHeight. fold top.
  fold (touchYOf htmlTag c). fold (touchXOf htmlTag c).
  by destruct (_ || _).
Qed.

(** The branch taken when neither side of the comparison is greater; this
    is also where a comparison with [NaN] ends. *)
Lemma calculateCoordinates_no_bars htmlTag c si a :
  EVENT_ACTION_MAP (type c) = Some a →
  (shouldBeOf (videoSize si) >? haveNowOf (target c))%num = false →
  (shouldBeOf (videoSize si) <? haveNowOf (target c))%num = false →
  calculateCoordinates htmlTag c (Some si) =
    Some (mkTouchOnClient
            (mkClientBox (clientWidth (target c)) (clientHeight (target c)))
            (mkTouch a
               (mkPosition
                  (mkPoint (touchXOf htmlTag c * width (videoSize si)
                            / clientWidth (target c))%num
                           (touchYOf htmlTag c * height (videoSize si)
                            / clientHeight (target c))%num)
                  (mkSize (width (videoSize si)) (height (videoSize si))))
               (BUTTONS_MAP (button c)))).
Proof.
  intros Ha Hgt Hlt.
  unfold calculateCoordinates. rewrite Ha.
  unfold shouldBeOf, haveNowOf in Hgt, Hlt. rewrite Hgt, Hlt.
  reflexivity.
Qed.

End Letterbox.

Section SquareBox.

Context {ME : MotionEvent}.

(** A 1920 × 1080 video in a 1000 × 1000 box: the video is the wider one. *)
Lemma fullHD_wider_than_square :
  (round (ofZ 100000 * (ofZ 1920 / ofZ 1080))
   >? round (ofZ 100000 * ofZ 1000 / ofZ 1000))%num = true.
Proof. vm_compute. reflexivity. Qed.

(** C4.  Remote video 1920 × 1080, target box 1000 × 1000.  The rendered
    height is [ceil (1000 / (1920 / 1080)) = 563] and the top margin
    [(1000 - 563) / 2 = 218.5].  A touch whose [touchY] is less than the
    margin maps to [null]; a touch whose [touchY] is 500, half the height
    of the box, maps to a touch with [y = 540], half the 1080 rows of the
    video. *)
Theorem letterbox_fullHD_in_square htmlTag c a :
  EVENT_ACTION_MAP (type c) = Some a →
  clientWidth (target c) = ofZ 1000 →
  clientHeight (target c) = ofZ 1000 →
  let realHeight := ceil (ofZ 1000 / (ofZ 1920 / ofZ 1080)) in
  let top := ((ofZ 1000 - realHeight) / ofZ 2)%num in
  realHeight = ofZ 563 ∧ top = ofQ (437 # 2) ∧
  ((touchYOf htmlTag c <? top)%num = true →
     calculateCoordinates htmlTag c (Some fullHD) = None) ∧
  (touchYOf htmlTag c = (ofZ 1000 / ofZ 2)%num →
     ∃ toc, calculateCoordinates htmlTag c (Some fullHD) = Some toc ∧
            y (point (position (touch toc))) = ofZ 540 ∧
            y (point (position (touch toc)))
            = (height (videoSize fullHD) / ofZ 2)%num).
Proof.
  intros Ha Hw Hh realHeight top.
  assert (Hbranch := calculateCoordinates_bars_above_below htmlTag c fullHD a Ha).
  unfold shouldBeOf, haveNowOf in Hbranch. rewrite Hw, Hh in Hbranch.
  specialize (Hbranch fullHD_wider_than_square).
  cbv zeta in Hbranch.
  change (width (videoSize fullHD)) with (ofZ 1920) in Hbranch.
  change (height (videoSize fullHD)) with (ofZ 1080) in Hbranch.
  fold realHeight in Hbranch. fold top in Hbranch.
  split; [reflexivity|]. split; [vm_compute; num_eq|].
  split.
  - intros Hlt. rewrite Hbranch, Hlt. reflexivity.
  - intros Hmid. rewrite Hmid in Hbranch.
    assert (Hin : ((ofZ 1000 / ofZ 2 <? top)
                   || (ofZ 1000 / ofZ 2 >? top + realHeight))%num = false)
      by (vm_compute; reflexivity).
    rewrite Hin in Hbranch.
    eexists. split; [exact Hbranch|]. simpl.
    split; vm_compute; num_eq.
Qed.

End SquareBox.

(** A touch in the top margin and a touch at mid-height of the square box. *)
Lemma letterbox_fullHD_in_square_witness :
  let inMargin := me_common (mouseMove 500 100 (canvasOf 1 1000 1000) false false) in
  let atCenter := me_common (mouseMove 500 500 (canvasOf 1 1000 1000) false false) in
  calculateCoordinates (ME := androidMotionEvent) unscrolled inMargin (Some fullHD)
  = None ∧
  ∃ toc, calculateCoordinates (ME := androidMotionEvent) unscrolled atCenter
           (Some fullHD) = Some toc ∧
         y (point (position (touch toc))) = ofZ 540.
Proof.
  cbv zeta. split.
  - destruct (letterbox_fullHD_in_square (ME := androidMotionEvent) unscrolled
                (me_common (mouseMove 500 100 (canvasOf 1 1000 1000) false false))
                2 eq_refl eq_refl eq_refl) as (_ & _ & Hnull & _).
    apply Hnull. vm_compute. reflexivity.
  - destruct (letterbox_fullHD_in_square (ME := androidMotionEvent) unscrolled
                (me_common (mouseMove 500 500 (canvasOf 1 1000 1000) false false))
                2 eq_refl eq_refl eq_refl) as (_ & _ & _ & Hmid).
    destruct Hmid as (toc & Hcalc & Hy & _); [vm_compute; num_eq|].
    exists toc. split; [exact Hcalc|exact Hy].
Defined.

(** ** A target without layout size *)

Section NumFacts.

Local Open Scope Qc_scope.

Lemma sgn_positive (q : Qc) : 0 < q → sgn q = Pos.
Proof.
  unfold Qclt, Qlt, sgn. simpl. destruct (Qnum (this q)); [lia|done|lia].
Qed.

Lemma sgn_zero : sgn (Q2Qc (inject_Z 0)) = Zer.
Proof. reflexivity. Qed.

(** Nothing divided by zero is a finite number. *)
Lemma div_zero_not_finite (a : num) : is_finite (a / ofZ 0)%num = false.
Proof.
  destruct a as [p| | |]; try reflexivity.
  unfold JSNum.div, ofZ. rewrite sgn_zero. by destruct (sgn p).
Qed.

Lemma positive_over_zero (k q : Qc) :
  0 < k → 0 < q → (Fin k * Fin q / ofZ 0)%num = PInf.
Proof.
  intros Hk Hq. unfold JSNum.mul, JSNum.div, ofZ. rewrite sgn_zero.
  rewrite sgn_positive; [done|].
  replace 0 with (0 * q) by ring. by apply Qcmult_lt_compat_r.
Qed.

Lemma ceil_zero_times (r : Qc) : ceil (ofZ 0 * Fin r)%num = ofZ 0.
Proof.
  unfold ofZ at 1, JSNum.mul, ceil.
  change (Q2Qc (inject_Z 0)) with 0. by replace (0 * r) with 0 by ring.
Qed.

Lemma ceil_zero_over (r : Qc) : 0 < r → ceil (ofZ 0 / Fin r)%num = ofZ 0.
Proof.
  intros Hr. unfold ofZ at 1, JSNum.div, ceil.
  rewrite (sgn_positive r Hr).
  change (Q2Qc (inject_Z 0)) with 0.
  by replace (0 / r) with 0 by (unfold Qcdiv; ring).
Qed.

Lemma round_zero_over (k q : Qc) :
  0 < q → round (Fin k * ofZ 0 / Fin q)%num = ofZ 0.
Proof.
  intros Hq. unfold ofZ at 1, JSNum.mul, JSNum.div, round.
  rewrite (sgn_positive q Hq).
  change (Q2Qc (inject_Z 0)) with 0.
  by replace (k * 0 / q) with 0 by (unfold Qcdiv; ring).
Qed.

(** A finite [t] passes the test [t < m || t > m + 0], with [m] the half
    of [s - 0], exactly when it is the half of [s]. *)
Lemma off_centre_line (s t : Qc) :
  let m := ((Fin s - ofZ 0) / ofZ 2)%num in
  ((Fin t <? m)%num || (Fin t >? m + ofZ 0)%num = false ↔ t = s / Q2Qc (inject_Z 2))
  ∧ (m + ofZ 0 = m)%num
  ∧ (Fin (s / Q2Qc (inject_Z 2)) - m = ofZ 0)%num.
Proof.
  assert (Hm : ((Fin s - ofZ 0) / ofZ 2)%num = Fin (s / Q2Qc (inject_Z 2))).
  { unfold JSNum.sub, JSNum.add, JSNum.div, ofZ. simpl.
    change (sgn (Q2Qc (inject_Z 2))) with Pos. cbv iota. f_equal.
    change (- Q2Qc (inject_Z 0)) with 0.
    unfold Qcdiv. ring. }
  cbv zeta. rewrite Hm.
  assert (Hm0 : (Fin (s / Q2Qc (inject_Z 2)) + ofZ 0)%num
                = Fin (s / Q2Qc (inject_Z 2))).
  { unfold JSNum.add, ofZ. f_equal. change (Q2Qc (inject_Z 0)) with 0. ring. }
  rewrite Hm0. split; [|split; [done|]].
  - unfold JSNum.gt, JSNum.lt. rewrite orb_false_iff, !bool_decide_eq_false.
    split.
    + intros [H1 H2]. apply Qcnot_lt_le in H1, H2. by apply Qcle_antisym.
    + intros ->. split; apply Qcle_not_lt, Qcle_refl.
  - unfold JSNum.sub, JSNum.add, JSNum.neg, ofZ. f_equal.
    change (Q2Qc (inject_Z 0)) with 0. ring.
Qed.

End NumFacts.

Section ZeroSize.

Context {ME : MotionEvent}.

Local Open Scope Qc_scope.

(** The branch taken when the target is relatively wider than the video:
    bars left and right. *)
Lemma calculateCoordinates_bars_left_right htmlTag c si a :
  EVENT_ACTION_MAP (type c) = Some a →
  (shouldBeOf (videoSize si) >? haveNowOf (target c))%num = false →
  (shouldBeOf (videoSize si) <? haveNowOf (target c))%num = true →
  let ratio := (width (videoSize si) / height (videoSize si))%num in
  let realWidth := ceil (clientHeight (target c) * ratio) in
  let left := ((clientWidth (target c) - realWidth) / ofZ 2)%num in
  calculateCoordinates htmlTag c (Some si) =
    if (touchXOf htmlTag c <? left)%num
       || (touchXOf htmlTag c >? left + realWidth)%num
    then None
    else Some (mkTouchOnClient
                 (mkClientBox realWidth (clientHeight (target c)))
                 (mkTouch a
                    (mkPosition
                       (mkPoint ((touchXOf htmlTag c - left)
                                 * width (videoSize si) / realWidth)%num
                                (touchYOf htmlTag c * height (videoSize si)
                                 / clientHeight (target c))%num)
                       (mkSize (width (videoSize si)) (height (videoSize si))))
                    (BUTTONS_MAP (button c)))).
Proof.
  intros Ha Hgt Hlt ratio realWidth left.
  unfold calculateCoordinates. rewrite Ha.
  unfold shouldBeOf, haveNowOf in Hgt, Hlt. rewrite Hgt, Hlt.
  fold ratio. fold realWidth. fold left.
  fold (touchYOf htmlTag c). fold (touchXOf htmlTag c).
  by destruct (_ || _).
Qed.

(** C6, as the code has it.  Nothing in [calculateCoordinates] looks at a
    zero layout size.  With both dimensions zero the aspect of the target
    is [NaN], neither comparison holds, and a touch is produced whose
    coordinates are not finite numbers.  With one dimension zero the
    letterbox test rejects every touch except the one on the centre line
    of the other dimension, and that one again becomes a touch without
    finite coordinates. *)
Theorem calculateCoordinates_zero_size htmlTag c si a :
  EVENT_ACTION_MAP (type c) = Some a →
  (clientWidth (target c) = ofZ 0 → clientHeight (target c) = ofZ 0 →
     ∃ toc, calculateCoordinates htmlTag c (Some si) = Some toc ∧
            nonFinitePoint (point (position (touch toc))))
  ∧ (∀ W r tx,
       clientWidth (target c) = Fin W → 0 < W →
       clientHeight (target c) = ofZ 0 →
       (width (videoSize si) / height (videoSize si))%num = Fin r →
       touchXOf htmlTag c = Fin tx →
       (tx ≠ W / Q2Qc (inject_Z 2) →
          calculateCoordinates htmlTag c (Some si) = None)
       ∧ (tx = W / Q2Qc (inject_Z 2) →
            ∃ toc, calculateCoordinates htmlTag c (Some si) = Some toc ∧
                   nonFinitePoint (point (position (touch toc)))))
  ∧ (∀ H r ty,
       clientWidth (target c) = ofZ 0 →
       clientHeight (target c) = Fin H → 0 < H →
       (width (videoSize si) / height (videoSize si))%num = Fin r → 0 < r →
       (shouldBeOf (videoSize si) >? ofZ 0)%num = true →
       touchYOf htmlTag c = Fin ty →
       (ty ≠ H / Q2Qc (inject_Z 2) →
          calculateCoordinates htmlTag c (Some si) = None)
       ∧ (ty = H / Q2Qc (inject_Z 2) →
            ∃ toc, calculateCoordinates htmlTag c (Some si) = Some toc ∧
                   nonFinitePoint (point (position (touch toc))))).
Proof.
  intros Ha. split; [|split].
  - intros Hw Hh.
    assert (Hnan : haveNowOf (target c) = NaN).
    { unfold haveNowOf. rewrite Hw, Hh. reflexivity. }
    rewrite (calculateCoordinates_no_bars htmlTag c si a Ha).
    + eexists. split; [reflexivity|]. simpl. rewrite Hw, Hh.
      split; apply div_zero_not_finite.
    + rewrite Hnan. by destruct (shouldBeOf (videoSize si)).
    + rewrite Hnan. by destruct (shouldBeOf (videoSize si)).
  - intros W r tx Hw HW Hh Hr Htx.
    assert (Hinf : haveNowOf (target c) = PInf).
    { unfold haveNowOf. rewrite Hw, Hh. unfold ofZ at 1.
      by rewrite positive_over_zero. }
    assert (Hfin : ∃ s, shouldBeOf (videoSize si) = Fin s).
    { unfold shouldBeOf. rewrite Hr. by eexists. }
    destruct Hfin as [s Hs].
    pose proof (calculateCoordinates_bars_left_right htmlTag c si a Ha) as Hb.
    rewrite Hinf, Hs in Hb. specialize (Hb eq_refl eq_refl).
    cbv zeta in Hb. rewrite Hr, Hw, Hh, Htx, ceil_zero_times in Hb.
    destruct (off_centre_line W tx) as (Hline & Hm0 & _).
    cbv zeta in Hline, Hm0. split.
    + intros Hne. rewrite Hb.
      match goal with
      | |- (if ?b then _ else _) = _ =>
          assert (Htest : b = true)
            by (apply not_false_iff_true; intros Hf; apply Hne, Hline, Hf)
      end.
      by rewrite Htest.
    + intros Heq. apply Hline in Heq. rewrite Heq in Hb.
      eexists. split; [exact Hb|]. simpl. split; apply div_zero_not_finite.
  - intros H r ty Hw Hh HH Hr Hrpos Hshould Hty.
    assert (Hzero : haveNowOf (target c) = ofZ 0).
    { unfold haveNowOf. rewrite Hw, Hh. unfold ofZ at 1.
      by rewrite round_zero_over. }
    pose proof (calculateCoordinates_bars_above_below htmlTag c si a Ha) as Hb.
    rewrite Hzero in Hb. specialize (Hb Hshould).
    cbv zeta in Hb. rewrite Hr, Hw, Hh, Hty, (ceil_zero_over r Hrpos) in Hb.
    destruct (off_centre_line H ty) as (Hline & Hm0 & _).
    cbv zeta in Hline, Hm0. split.
    + intros Hne. rewrite Hb.
      match goal with
      | |- (if ?b then _ else _) = _ =>
          assert (Htest : b = true)
            by (apply not_false_iff_true; intros Hf; apply Hne, Hline, Hf)
      end.
      by rewrite Htest.
    + intros Heq. apply Hline in Heq. rewrite Heq in Hb.
      eexists. split; [exact Hb|]. simpl. split; apply div_zero_not_finite.
Qed.

End ZeroSize.

(** C6, the counterexample.  A mouse move over a canvas whose client box is
    0 × 0 is not dropped: the mapping answers a touch, at [(NaN, NaN)]. *)
Lemma zero_size_target_is_mapped :
  let c := me_common (mouseMove 0 0 (canvasOf 1 0 0) false false) in
  clientWidth (target c) = ofZ 0 ∧ clientHeight (target c) = ofZ 0 ∧
  calculateCoordinates (ME := androidMotionEvent) unscrolled c (Some fullHD)
  ≠ None ∧
  (λ toc, point (position (touch toc))) <$>
    calculateCoordinates (ME := androidMotionEvent) unscrolled c (Some fullHD)
  = Some (mkPoint NaN NaN).
Proof.
  cbv zeta. split; [reflexivity|]. split; [reflexivity|].
  split; [vm_compute; discriminate | vm_compute; reflexivity].
Qed.

Lemma calculateCoordinates_zero_size_witness :
  let c0 := me_common (mouseMove 3 4 (canvasOf 1 0 0) false false) in
  let c1 := me_common (mouseMove 50 7 (canvasOf 1 100 0) false false) in
  let c2 := me_common (mouseMove 51 7 (canvasOf 1 100 0) false false) in
  is_Some (calculateCoordinates (ME := androidMotionEvent) unscrolled c0
             (Some fullHD)) ∧
  is_Some (calculateCoordinates (ME := androidMotionEvent) unscrolled c1
             (Some fullHD)) ∧
  calculateCoordinates (ME := androidMotionEvent) unscrolled c2 (Some fullHD)
  = None.
Proof.
  cbv zeta. split; [|split].
  - destruct (calculateCoordinates_zero_size (ME := androidMotionEvent)
                unscrolled
                (me_common (mouseMove 3 4 (canvasOf 1 0 0) false false))
                fullHD 2 eq_refl) as (Hboth & _).
    destruct (Hboth eq_refl eq_refl) as (toc & -> & _). by eexists.
  - destruct (calculateCoordinates_zero_size (ME := androidMotionEvent)
                unscrolled
                (me_common (mouseMove 50 7 (canvasOf 1 100 0) false false))
                fullHD 2 eq_refl) as (_ & Hflat & _).
    destruct (Hflat (Q2Qc (inject_Z 100))
                (Q2Qc (inject_Z 1920) / Q2Qc (inject_Z 1080))%Qc
                (Q2Qc (inject_Z 50) + - Q2Qc (inject_Z 0) + Q2Qc (inject_Z 0))%Qc
                eq_refl eq_refl eq_refl eq_refl eq_refl) as (_ & Hon).
    destruct Hon as (toc & -> & _); [apply Qc_is_canon; reflexivity|].
    by eexists.
  - destruct (calculateCoordinates_zero_size (ME := androidMotionEvent)
                unscrolled
                (me_common (mouseMove 51 7 (canvasOf 1 100 0) false false))
                fullHD 2 eq_refl) as (_ & Hflat & _).
    destruct (Hflat (Q2Qc (inject_Z 100))
                (Q2Qc (inject_Z 1920) / Q2Qc (inject_Z 1080))%Qc
                (Q2Qc (inject_Z 51) + - Q2Qc (inject_Z 0) + Q2Qc (inject_Z 0))%Qc
                eq_refl eq_refl eq_refl eq_refl eq_refl) as (Hoff & _).
    apply Hoff. intros Heq. apply (f_equal this) in Heq.
    vm_compute in Heq. discriminate Heq.
Defined.

(** ** The dirty region *)

Section DirtyRegion.

Local Open Scope Qc_scope.

(** One axis of [clearCanvas] against one axis of the intersection: for a
    region from [a] to [c] and a surface of extent [W], the cleared extent
    [w] is at least that of the intersection, [w'], and ends no later than
    the region; the two agree when the region starts at or before 0, or
    ends within the surface. *)
Lemma clearCanvas_extent (a c W : Qc) :
  let x0 := JSNum.max (Fin a) (ofZ 0) in
  let w := JSNum.min (Fin W) (Fin c - x0)%num in
  let w' := (JSNum.min (Fin c) (Fin W) - x0)%num in
  (w' <=? w)%num = true ∧ (w <=? Fin c - x0)%num = true ∧
  ((Fin a <=? ofZ 0)%num || (Fin c <=? Fin W)%num = true → w' = w).
Proof.
  cbv zeta.
  unfold JSNum.max, JSNum.min, JSNum.le, ofZ, JSNum.sub, JSNum.neg, JSNum.add.
  change (Q2Qc (inject_Z 0)) with 0.
  repeat case_bool_decide; simpl; rewrite ?bool_decide_eq_true;
    repeat case_bool_decide; simpl; rewrite ?bool_decide_eq_true.
  all: split; [|split].
  all: try (intros Hexact; try discriminate Hexact; clear Hexact;
            f_equal; apply Qc_is_canon).
  all: qc_to_q; lra.
Qed.

(** C2, as the code has it.  With a 2d context and a tracked region,
    [clearCanvas] makes one call [clearRect(x, y, w, h)]: the corner is the
    region's top-left corner clamped to the origin, the width is
    [min(clientWidth, bottomRight.x - x)] and the height likewise.  The
    tracked region is not reset: it is after the call what it was before.
    For finite coordinates the cleared rectangle has the corner of the
    intersection of the region with the drawable bounds and covers it,
    without reaching past the region's bottom-right corner; on an axis where
    the region starts at or before 0 or ends within the surface, its extent
    is that of the intersection. *)
Theorem clearCanvas_clears_and_keeps tgt ctx topLeft bottomRight st :
  context2d tgt = Some ctx →
  dirtyPlace st = Some (topLeft, bottomRight) →
  let x0 := JSNum.max (x topLeft) (ofZ 0) in
  let y0 := JSNum.max (y topLeft) (ofZ 0) in
  let w := JSNum.min (clientWidth tgt) (x bottomRight - x0)%num in
  let h := JSNum.min (clientHeight tgt) (y bottomRight - y0)%num in
  clearCanvas tgt st = (st, [ClearRect x0 y0 w h]) ∧
  dirtyPlace (clearCanvas tgt st).1 = Some (topLeft, bottomRight) ∧
  (is_finite (x topLeft) && is_finite (y topLeft)
   && is_finite (x bottomRight) && is_finite (y bottomRight)
   && is_finite (clientWidth tgt) && is_finite (clientHeight tgt) = true →
   (boundsIntersection topLeft bottomRight tgt).1.1.1 = x0 ∧
   (boundsIntersection topLeft bottomRight tgt).1.1.2 = y0 ∧
   ((boundsIntersection topLeft bottomRight tgt).1.2 <=? w)%num = true ∧
   ((boundsIntersection topLeft bottomRight tgt).2 <=? h)%num = true ∧
   (w <=? x bottomRight - x0)%num = true ∧
   (h <=? y bottomRight - y0)%num = true ∧
   ((x topLeft <=? ofZ 0)%num || (x bottomRight <=? clientWidth tgt)%num = true →
      (boundsIntersection topLeft bottomRight tgt).1.2 = w) ∧
   ((y topLeft <=? ofZ 0)%num || (y bottomRight <=? clientHeight tgt)%num = true →
      (boundsIntersection topLeft bottomRight tgt).2 = h)).
Proof.
  intros Hctx Hdirty x0 y0 w h.
  assert (Hclear : clearCanvas tgt st = (st, [ClearRect x0 y0 w h])).
  { unfold clearCanvas. by rewrite Hctx, Hdirty. }
  split; [exact Hclear|]. split; [by rewrite Hclear|].
  intros Hfin. repeat (apply andb_prop in Hfin as [Hfin ?]).
  subst x0 y0 w h. unfold boundsIntersection. simpl.
  destruct (x topLeft) as [a1| | |]; try discriminate.
  destruct (y topLeft) as [a2| | |]; try discriminate.
  destruct (x bottomRight) as [c1| | |]; try discriminate.
  destruct (y bottomRight) as [c2| | |]; try discriminate.
  destruct (clientWidth tgt) as [W| | |]; try discriminate.
  destruct (clientHeight tgt) as [H'| | |]; try discriminate.
  destruct (clearCanvas_extent a1 c1 W) as (Hx1 & Hx2 & Hx3).
  destruct (clearCanvas_extent a2 c2 H') as (Hy1 & Hy2 & Hy3).
  done.
Qed.

End DirtyRegion.

(** C2, the counterexample.  On a 100 × 100 surface the region
    [(84, 84) .. (106, 106)] meets the drawable bounds in the square of side
    16 at [(84, 84)]; [clearCanvas] clears the square of side 22 there, and
    the region is still tracked when it returns. *)
Lemma clearCanvas_keeps_region :
  let tgt := canvasOf 1 100 100 in
  dirtyPlace afterCircle
  = Some (mkPoint (ofZ 84) (ofZ 84), mkPoint (ofZ 106) (ofZ 106)) ∧
  boundsIntersection (mkPoint (ofZ 84) (ofZ 84)) (mkPoint (ofZ 106) (ofZ 106)) tgt
  = (ofZ 84, ofZ 84, ofZ 16, ofZ 16) ∧
  (clearCanvas tgt afterCircle).2
  = [ClearRect (ofZ 84) (ofZ 84) (ofZ 22) (ofZ 22)] ∧
  dirtyPlace (clearCanvas tgt afterCircle).1 ≠ None.
Proof.
  cbv zeta. split; [vm_compute; num_eq|]. split; [vm_compute; num_eq|].
  split; [vm_compute; num_eq|]. vm_compute. discriminate.
Qed.

Lemma clearCanvas_clears_and_keeps_witness :
  let tgt := canvasOf 1 100 100 in
  context2d tgt = Some (mkContext2D (ofZ 1)) ∧
  is_Some (dirtyPlace afterCircle) ∧
  (clearCanvas tgt afterCircle).1 = afterCircle ∧
  is_Some (dirtyPlace (clearCanvas tgt afterCircle).1).
Proof.
  cbv zeta.
  destruct (dirtyPlace afterCircle) as [[topLeft bottomRight]|] eqn:Hdirty;
    [|vm_compute in Hdirty; discriminate Hdirty].
  destruct (clearCanvas_clears_and_keeps (canvasOf 1 100 100)
              (mkContext2D (ofZ 1)) topLeft bottomRight afterCircle
              eq_refl Hdirty) as (Hclear & Hkept & _).
  split; [reflexivity|]. split; [by eexists|].
  split; [by rewrite Hclear|]. rewrite Hkept. by eexists.
Defined.

(** ** formatTouchEvent and the allocator *)

Section Translator.

Context {ME : MotionEvent}.

Lemma formatTouches_state htmlTag e screenInfo tag touches events st :
  (formatTouches htmlTag e screenInfo tag touches events st).2
  = acquireAll (callsOf e touches) st.
Proof.
  revert events st.
  induction touches as [|t touches IH]; intros events st; [done|].
  simpl. destruct (getPointerId (te_type e) (identifier t) st) as [p st1].
  simpl. destruct (negb _); [apply IH|].
  destruct (calculateCoordinates _ _ _) as [[? [? ? ?]]|]; apply IH.
Qed.

Lemma formatTouches_length htmlTag e screenInfo tag touches events st :
  (length (formatTouches htmlTag e screenInfo tag touches events st).1
   ≤ length events + length (onTarget tag touches))%nat.
Proof.
  revert events st.
  induction touches as [|t touches IH]; intros events st; [simpl; lia|].
  simpl. destruct (getPointerId (te_type e) (identifier t) st) as [p st1].
  unfold onTarget. rewrite filter_cons.
  destruct (Nat.eqb_spec (elemId (dt_target t)) (elemId tag)) as [Heq|Hne];
    simpl.
  - rewrite decide_True by done. simpl.
    destruct (calculateCoordinates _ _ _) as [[? [? ? ?]]|].
    + etrans; [apply IH|]. rewrite length_app. simpl. unfold onTarget. lia.
    + etrans; [apply IH|]. unfold onTarget. lia.
  - rewrite decide_False by done. apply IH.
Qed.

(** C5, as the code has it.  [formatTouchEvent] calls [getPointerId] for
    every changed contact, in order and before it looks at the contact's
    target: the allocator is left as by that run of calls, whatever the
    targets are.  The target decides only whether an event is emitted:
    there are no more events than contacts on the given element. *)
Theorem formatTouchEvent_acquires_every_contact htmlTag e screenInfo tag st :
  (formatTouchEvent htmlTag e screenInfo tag st).2
  = acquireAll (callsOf e (changedTouches e)) st
  ∧ (length (default [] (formatTouchEvent htmlTag e screenInfo tag st).1)
     ≤ length (onTarget tag (changedTouches e)))%nat.
Proof.
  unfold formatTouchEvent.
  pose proof (formatTouches_state htmlTag e screenInfo tag
                (changedTouches e) [] st) as Hst.
  pose proof (formatTouches_length htmlTag e screenInfo tag
                (changedTouches e) [] st) as Hlen.
  destruct (formatTouches _ _ _ _ _ _ _) as [events st'].
  simpl in *. destruct events; simpl in *; (split; [done|lia]).
Qed.

End Translator.

(** C5, the counterexample.  A touch starts on another element than the one
    [formatTouchEvent] is asked about.  No event is produced, and the raw
    identifier 5, unmapped before, holds pointer id 0 afterwards. *)
Lemma formatTouchEvent_maps_foreign_contact :
  let tag := canvasOf 1 960 540 in
  let other := canvasOf 2 960 540 in
  let e := mkTouchEvent "touchstart" other
             [mkDomTouch 5 other (ofZ 10) (ofZ 10) (ofZ 1)] in
  let r := formatTouchEvent (ME := androidMotionEvent) unscrolled e
             (Some fullHD) tag initial in
  elemId other ≠ elemId tag ∧
  r.1 = None ∧
  idToPointerMap initial !! 5 = None ∧ pointerToIdMap initial !! 0 = None ∧
  idToPointerMap r.2 !! 5 = Some 0 ∧ pointerToIdMap r.2 !! 0 = Some 5.
Proof. cbv zeta. repeat split; vm_compute; congruence. Qed.

(** ** The remaining operations, run on examples *)

(** Two marks, [(0, 0) .. (10, 10)] and then [(5, 5) .. (20, 20)], leave the
    region [(0, 0) .. (20, 20)] tracked. *)
Example updateDirty_union :
  dirtyPlace
    (updateDirty (mkPoint (ofZ 5) (ofZ 5)) (mkPoint (ofZ 20) (ofZ 20))
       (updateDirty (mkPoint (ofZ 0) (ofZ 0)) (mkPoint (ofZ 10) (ofZ 10))
          initial))
  = Some (mkPoint (ofZ 0) (ofZ 0), mkPoint (ofZ 20) (ofZ 20)).
Proof. vm_compute. num_eq. Qed.

(** A mouse move with [ctrl] held starts a simulation: [buildTouchEvent]
    answers two events, numbered 0 and 1 by their place in the array, both
    at full pressure, and leaves a region tracked for the marks it drew. *)
Example buildTouchEvent_numbers_by_place :
  let r := buildTouchEvent (ME := androidMotionEvent) unscrolled
             (mouseMove 900 500 (canvasOf 1 960 540) true false)
             (Some fullHD) initial in
  map tce_pointerId <$> r.1.1 = Some [0; 1] ∧
  map tce_pressure <$> r.1.1 = Some [ofZ 255; ofZ 255] ∧
  multiTouchActive r.1.2 = true ∧
  is_Some (dirtyPlace r.1.2).
Proof.
  cbv zeta. split; [vm_compute; reflexivity|]. split; [vm_compute; num_eq|].
  split; [vm_compute; reflexivity|]. vm_compute. by eexists.
Qed.

(** A touch that starts, moves and ends on the element keeps one pointer id
    through its three events, and the identifier is free afterwards. *)
Example formatTouchEvent_one_contact :
  let tag := canvasOf 1 960 540 in
  let ev ty := mkTouchEvent ty tag [mkDomTouch 41 tag (ofZ 10) (ofZ 20) (ofZ 1)] in
  let r1 := formatTouchEvent (ME := androidMotionEvent) unscrolled
              (ev "touchstart") (Some fullHD) tag initial in
  let r2 := formatTouchEvent (ME := androidMotionEvent) unscrolled
              (ev "touchmove") (Some fullHD) tag r1.2 in
  let r3 := formatTouchEvent (ME := androidMotionEvent) unscrolled
              (ev "touchend") (Some fullHD) tag r2.2 in
  map tce_pointerId <$> r1.1 = Some [0] ∧
  map tce_pointerId <$> r2.1 = Some [0] ∧
  map tce_pointerId <$> r3.1 = Some [0] ∧
  map tce_action <$> r3.1 = Some [1] ∧
  idToPointerMap r3.2 !! 41 = None ∧ pointerToIdMap r3.2 !! 0 = None.
Proof. cbv zeta. repeat split; vm_compute; reflexivity. Qed.

(** * Further properties *)

(** ** The allocator under [formatTouchEvent] *)

Section AllocatorInvariants.

Context {ME : MotionEvent}.

Implicit Types (st : TouchHandler) (ty : string).

Lemma getPointerId_mirrored ty id st :
  mirrored st → mirrored (getPointerId ty id st).2.
Proof.
  intros Hm p i. unfold getPointerId.
  destruct (idToPointerMap st !! id) as [pid|] eqn:Hid.
  - destruct (isTermination ty); simpl; [|apply Hm].
    intros Hp. apply lookup_delete_Some in Hp as [Hne Hp].
    pose proof (Hm p i Hp) as Hi.
    rewrite lookup_delete_ne; [done|]. intros ->. congruence.
  - simpl. intros Hp. apply lookup_insert_Some in Hp as [[<- <-]|[Hne Hp]].
    + apply lookup_insert_eq.
    + pose proof (Hm p i Hp) as Hi.
      rewrite lookup_insert_ne; [done|]. intros ->. congruence.
Qed.

Lemma acquireAll_mirrored calls st :
  mirrored st → mirrored (acquireAll calls st).
Proof.
  revert st. induction calls as [|[ty id] calls IH]; intros st Hm; [done|].
  simpl. apply IH. by apply getPointerId_mirrored.
Qed.

(** X1.  One half of the inverse relation survives every batch: an entry
    [p -> i] of [pointerToIdMap] always has the entry [i -> p] in
    [idToPointerMap]. *)
Theorem formatTouchEvent_keeps_mirror htmlTag e screenInfo tag st :
  mirrored st →
  mirrored (formatTouchEvent htmlTag e screenInfo tag st).2.
Proof.
  intros Hm. unfold formatTouchEvent.
  pose proof (formatTouches_state htmlTag e screenInfo tag
                (changedTouches e) [] st) as Hst.
  destruct (formatTouches _ _ _ _ _ _ _) as [events st']. simpl in Hst.
  subst st'. destruct events; simpl; by apply acquireAll_mirrored.
Qed.

Lemma getPointerId_nonneg ty id st :
  idsNonNegative st →
  0 ≤ (getPointerId ty id st).1 ∧ idsNonNegative (getPointerId ty id st).2.
Proof.
  intros Hn. unfold getPointerId.
  destruct (idToPointerMap st !! id) as [pid|] eqn:Hid.
  - split.
    + destruct (isTermination ty); simpl; by apply (Hn id).
    + destruct (isTermination ty); simpl; [|done].
      intros i p Hp. simpl in Hp.
      apply lookup_delete_Some in Hp as [_ Hp]. by apply (Hn i).
  - simpl. destruct (whileHas_lowest (idToPointerMap st)) as [Hp0 _].
    split; [done|]. intros i p Hp. simpl in Hp.
    apply lookup_insert_Some in Hp as [[_ <-]|[_ Hp]]; [done|by apply (Hn i)].
Qed.

Lemma formatTouches_nonneg htmlTag e screenInfo tag touches events st :
  idsNonNegative st →
  Forall (λ ev, 0 ≤ tce_pointerId ev) events →
  Forall (λ ev, 0 ≤ tce_pointerId ev)
    (formatTouches htmlTag e screenInfo tag touches events st).1
  ∧ idsNonNegative (formatTouches htmlTag e screenInfo tag touches events st).2.
Proof.
  revert events st.
  induction touches as [|t touches IH]; intros events st Hn Hev; [done|].
  simpl. destruct (getPointerId_nonneg (te_type e) (identifier t) st Hn)
    as [Hp Hn1].
  destruct (getPointerId (te_type e) (identifier t) st) as [p st1].
  simpl in Hp, Hn1. destruct (negb _); [by apply IH|].
  destruct (calculateCoordinates _ _ _) as [[? [? ? ?]]|]; [|by apply IH].
  apply IH; [done|]. apply Forall_app. split; [done|]. by constructor.
Qed.

(** X2.  While no negative pointer id is on record, none is handed out: every
    event of a batch carries a pointer id of 0 or more, and the record stays
    free of negative ids. *)
Theorem formatTouchEvent_ids_nonneg htmlTag e screenInfo tag st :
  idsNonNegative st →
  Forall (λ ev, 0 ≤ tce_pointerId ev)
    (default [] (formatTouchEvent htmlTag e screenInfo tag st).1)
  ∧ idsNonNegative (formatTouchEvent htmlTag e screenInfo tag st).2.
Proof.
  intros Hn. unfold formatTouchEvent.
  destruct (formatTouches_nonneg htmlTag e screenInfo tag (changedTouches e)
              [] st Hn (Forall_nil_2 _)) as [Hev Hn'].
  destruct (formatTouches _ _ _ _ _ _ _) as [events st'].
  simpl in *. by destruct events.
Qed.

Lemma getPointerId_frame ty j st :
  multiTouchActive (getPointerId ty j st).2 = multiTouchActive st ∧
  multiTouchCenter (getPointerId ty j st).2 = multiTouchCenter st ∧
  multiTouchShift (getPointerId ty j st).2 = multiTouchShift st ∧
  dirtyPlace (getPointerId ty j st).2 = dirtyPlace st ∧
  ∀ id, id ≠ j →
    idToPointerMap (getPointerId ty j st).2 !! id = idToPointerMap st !! id.
Proof.
  unfold getPointerId.
  destruct (idToPointerMap st !! j) as [pj|]; [destruct (isTermination ty)|];
    simpl; repeat split; try done; intros id Hne.
  - by rewrite lookup_delete_ne.
  - by rewrite lookup_insert_ne.
Qed.

Lemma acquireAll_frame calls st :
  multiTouchActive (acquireAll calls st) = multiTouchActive st ∧
  multiTouchCenter (acquireAll calls st) = multiTouchCenter st ∧
  multiTouchShift (acquireAll calls st) = multiTouchShift st ∧
  dirtyPlace (acquireAll calls st) = dirtyPlace st ∧
  ∀ id, id ∉ calls.*2 →
    idToPointerMap (acquireAll calls st) !! id = idToPointerMap st !! id.
Proof.
  revert st. induction calls as [|[ty j] calls IH]; intros st; [done|].
  simpl. destruct (IH (getPointerId ty j st).2) as (H1 & H2 & H3 & H4 & H5).
  destruct (getPointerId_frame ty j st) as (G1 & G2 & G3 & G4 & G5).
  rewrite H1, H2, H3, H4. repeat split; try done.
  intros id Hid. apply not_elem_of_cons in Hid as [Hne Hid].
  rewrite H5 by done. by apply G5.
Qed.

(** X3.  What a batch leaves alone: the entry of [idToPointerMap] for
    every identifier that the batch does not list, the simulation state and
    the dirty region are as before.  Nothing is said of [pointerToIdMap],
    where the release of one identifier can delete the reverse entry of
    another. *)
Theorem formatTouchEvent_frame htmlTag e screenInfo tag st id :
  id ∉ identifiersOf (changedTouches e) →
  idToPointerMap (formatTouchEvent htmlTag e screenInfo tag st).2 !! id
  = idToPointerMap st !! id
  ∧ multiTouchActive (formatTouchEvent htmlTag e screenInfo tag st).2
    = multiTouchActive st
  ∧ multiTouchCenter (formatTouchEvent htmlTag e screenInfo tag st).2
    = multiTouchCenter st
  ∧ multiTouchShift (formatTouchEvent htmlTag e screenInfo tag st).2
    = multiTouchShift st
  ∧ dirtyPlace (formatTouchEvent htmlTag e screenInfo tag st).2
    = dirtyPlace st.
Proof.
  intros Hid. unfold formatTouchEvent.
  pose proof (formatTouches_state htmlTag e screenInfo tag
                (changedTouches e) [] st) as Hst.
  destruct (formatTouches _ _ _ _ _ _ _) as [events st']. simpl in Hst.
  assert (Hgoal :
    idToPointerMap st' !! id = idToPointerMap st !! id
    ∧ multiTouchActive st' = multiTouchActive st
    ∧ multiTouchCenter st' = multiTouchCenter st
    ∧ multiTouchShift st' = multiTouchShift st
    ∧ dirtyPlace st' = dirtyPlace st).
  { subst st'.
    destruct (acquireAll_frame (callsOf e (changedTouches e)) st)
      as (H1 & H2 & H3 & H4 & H5).
    repeat split; try done. apply H5.
    unfold callsOf. rewrite <- list_fmap_compose. exact Hid. }
  by destruct events.
Qed.

(** X4.  A contact that comes and goes: for an identifier that is not mapped, a
    first call of any type followed by a terminating call answers the same
    pointer id twice and brings [idToPointerMap] back to what it was;
    [pointerToIdMap] is left without an entry for that pointer id. *)
Theorem getPointerId_acquire_release ty1 ty2 id st :
  idToPointerMap st !! id = None →
  isTermination ty2 = true →
  let r1 := getPointerId ty1 id st in
  let r2 := getPointerId ty2 id r1.2 in
  r2.1 = r1.1 ∧
  idToPointerMap r2.2 = idToPointerMap st ∧
  pointerToIdMap r2.2 = delete r1.1 (pointerToIdMap st).
Proof.
  intros Hid Hty2. cbv zeta.
  rewrite (getPointerId_unmapped ty1 id st Hid). simpl.
  set (p := whileHas (idToPointerMap st) (S (size (idToPointerMap st))) 0).
  rewrite (getPointerId_mapped ty2 id p (set_maps _ _ st)
             (lookup_insert_eq _ _ _)), Hty2.
  simpl. split; [done|]. split.
  - rewrite delete_insert_eq. by apply delete_id.
  - by rewrite delete_insert_eq.
Qed.

End AllocatorInvariants.

(** ** Scaling into the video *)

Section ScaleFacts.

Local Open Scope Qc_scope.

Lemma Qc_div_positive (a b : Qc) : 0 < a → 0 < b → 0 < a / b.
Proof.
  intros Ha Hb. qc_arith. apply Qlt_shift_div_l; [done|]. lra.
Qed.

Lemma Qc_scale_within (t r v : Qc) :
  0 ≤ t → t ≤ r → 0 < r → 0 ≤ v → 0 ≤ t * v / r ∧ t * v / r ≤ v.
Proof.
  intros Ht Htr Hr Hv. qc_arith. split.
  - apply Qle_shift_div_l; [done|]. nra.
  - apply Qle_shift_div_r; [done|]. nra.
Qed.

Lemma Qc_ceiling_positive (q : Qc) :
  0 < q → 0 < Q2Qc (inject_Z (Qceiling (this q))).
Proof.
  intros Hq. qc_arith. pose proof (Qle_ceiling (this q)). lra.
Qed.

Lemma num_lt_irrefl (a : num) : (a <? a)%num = false.
Proof.
  destruct a as [q| | |]; try reflexivity.
  apply bool_decide_eq_false, Qcle_not_lt, Qcle_refl.
Qed.

(** A full extent scales to the full extent of the video, and zero to
    zero. *)
Lemma scale_full (t v : Qc) : 0 < t → (Fin t * Fin v / Fin t)%num = Fin v.
Proof.
  intros Ht. unfold JSNum.mul, JSNum.div. rewrite (sgn_positive t Ht).
  f_equal. field. intros ->. by apply Qclt_not_eq in Ht.
Qed.

Lemma scale_zero (t v : Qc) : 0 < t → (ofZ 0 * Fin v / Fin t)%num = ofZ 0.
Proof.
  intros Ht. unfold ofZ, JSNum.mul, JSNum.div. rewrite (sgn_positive t Ht).
  f_equal. change (Q2Qc (inject_Z 0)) with 0. unfold Qcdiv. ring.
Qed.

(** The scaling step on an offset [t - m] that the letterbox test has let
    through: with [m <= t <= m + r] the result is between 0 and [v]. *)
Lemma scale_accepted (t m r v : Qc) :
  0 < r → 0 ≤ v →
  (Fin t <? Fin m)%num || (Fin t >? Fin m + Fin r)%num = false →
  ∃ s, ((Fin t - Fin m) * Fin v / Fin r)%num = Fin s ∧ 0 ≤ s ∧ s ≤ v.
Proof.
  intros Hr Hv Htest.
  apply orb_false_iff in Htest as [Hlo Hhi].
  unfold JSNum.gt, JSNum.lt, JSNum.add in Hlo, Hhi.
  apply bool_decide_eq_false, Qcnot_lt_le in Hlo, Hhi.
  unfold JSNum.sub, JSNum.neg, JSNum.add, JSNum.mul, JSNum.div.
  rewrite (sgn_positive r Hr). eexists. split; [reflexivity|].
  apply Qc_scale_within; [| |done|done].
  - qc_arith. lra.
  - qc_arith. lra.
Qed.

End ScaleFacts.

Section Scaling.

Context {ME : MotionEvent}.

Local Open Scope Qc_scope.

(** X5.  Without bars the corners of the target's box go to the corners of the
    video: for a box of positive size whose rounded aspect equals that of
    the video, the touch at [(0, 0)] is mapped to [(0, 0)] and the touch at
    [(clientWidth, clientHeight)] to [(videoWidth, videoHeight)]. *)
Theorem calculateCoordinates_corners htmlTag c si a cw ch vw vh :
  EVENT_ACTION_MAP (type c) = Some a →
  clientWidth (target c) = Fin cw → 0 < cw →
  clientHeight (target c) = Fin ch → 0 < ch →
  videoSize si = mkSize (Fin vw) (Fin vh) →
  shouldBeOf (videoSize si) = haveNowOf (target c) →
  (touchXOf htmlTag c = ofZ 0 → touchYOf htmlTag c = ofZ 0 →
     (λ toc, point (position (touch toc)))
       <$> calculateCoordinates htmlTag c (Some si)
     = Some (mkPoint (ofZ 0) (ofZ 0)))
  ∧ (touchXOf htmlTag c = Fin cw → touchYOf htmlTag c = Fin ch →
       (λ toc, point (position (touch toc)))
         <$> calculateCoordinates htmlTag c (Some si)
       = Some (mkPoint (Fin vw) (Fin vh))).
Proof.
  intros Ha Hw Hcw Hh Hch Hvideo Haspect.
  assert (Hcalc := calculateCoordinates_no_bars htmlTag c si a Ha).
  rewrite Haspect in Hcalc. unfold JSNum.gt in Hcalc.
  specialize (Hcalc (num_lt_irrefl _) (num_lt_irrefl _)).
  rewrite Hcalc, Hw, Hh, Hvideo. simpl. split.
  - intros -> ->. by rewrite !scale_zero.
  - intros -> ->. by rewrite !scale_full.
Qed.

(** X6.  Bars above and below: a touch that the letterbox test lets
    through gets a [y] between 0 and the height of the video, and the
    client box that is returned has the rendered height, which is
    positive. *)
Theorem calculateCoordinates_rows_in_video htmlTag c si a cw ch vw vh ty toc :
  EVENT_ACTION_MAP (type c) = Some a →
  videoSize si = mkSize (Fin vw) (Fin vh) → 0 < vw → 0 < vh →
  clientWidth (target c) = Fin cw → 0 < cw →
  clientHeight (target c) = Fin ch →
  touchYOf htmlTag c = Fin ty →
  (shouldBeOf (videoSize si) >? haveNowOf (target c))%num = true →
  calculateCoordinates htmlTag c (Some si) = Some toc →
  ∃ yv rh,
    y (point (position (touch toc))) = Fin yv ∧ 0 ≤ yv ∧ yv ≤ vh ∧
    cb_height (client toc) = Fin rh ∧ 0 < rh.
Proof.
  intros Ha Hvideo Hvw Hvh Hw Hcw Hh Hty Hwide Hcalc.
  rewrite (calculateCoordinates_bars_above_below htmlTag c si a Ha Hwide)
    in Hcalc.
  rewrite Hvideo, Hw, Hh, Hty in Hcalc. cbv zeta in Hcalc.
  cbn [width height] in Hcalc.
  assert (Hratio : (Fin vw / Fin vh)%num = Fin (vw / vh)).
  { unfold JSNum.div. by rewrite (sgn_positive vh Hvh). }
  rewrite Hratio in Hcalc.
  assert (Hreal : ∃ rh, ceil (Fin cw / Fin (vw / vh))%num = Fin rh ∧ 0 < rh).
  { unfold JSNum.div.
    rewrite (sgn_positive _ (Qc_div_positive vw vh Hvw Hvh)).
    eexists. split; [reflexivity|].
    apply Qc_ceiling_positive, Qc_div_positive; [done|].
    by apply Qc_div_positive. }
  destruct Hreal as (rh & Hrh & Hrhpos). rewrite Hrh in Hcalc.
  assert (Htop : ∃ m, ((Fin ch - Fin rh) / ofZ 2)%num = Fin m).
  { unfold JSNum.sub, JSNum.neg, JSNum.add, JSNum.div, ofZ.
    change (sgn (Q2Qc (inject_Z 2))) with Pos. by eexists. }
  destruct Htop as (m & Hm). rewrite Hm in Hcalc.
  destruct (_ || _) eqn:Htest in Hcalc; [discriminate|].
  apply (inj Some) in Hcalc. subst toc.
  lazy beta iota delta [y point position touch client cb_height].
  destruct (scale_accepted ty m rh vh Hrhpos (Qclt_le_weak _ _ Hvh) Htest)
    as (s & Hs & Hs0 & Hsv).
  exists s, rh. rewrite Hs. done.
Qed.

(** X7.  Bars left and right: a touch that the letterbox test lets
    through gets an [x] between 0 and the width of the video, and the
    client box that is returned has the rendered width, which is
    positive. *)
Theorem calculateCoordinates_columns_in_video htmlTag c si a cw ch vw vh tx toc :
  EVENT_ACTION_MAP (type c) = Some a →
  videoSize si = mkSize (Fin vw) (Fin vh) → 0 < vw → 0 < vh →
  clientWidth (target c) = Fin cw →
  clientHeight (target c) = Fin ch → 0 < ch →
  touchXOf htmlTag c = Fin tx →
  (shouldBeOf (videoSize si) <? haveNowOf (target c))%num = true →
  (shouldBeOf (videoSize si) >? haveNowOf (target c))%num = false →
  calculateCoordinates htmlTag c (Some si) = Some toc →
  ∃ xv rw,
    x (point (position (touch toc))) = Fin xv ∧ 0 ≤ xv ∧ xv ≤ vw ∧
    cb_width (client toc) = Fin rw ∧ 0 < rw.
Proof.
  intros Ha Hvideo Hvw Hvh Hw Hh Hch Htx Hnarrow Hnotwide Hcalc.
  rewrite (calculateCoordinates_bars_left_right htmlTag c si a Ha
             Hnotwide Hnarrow) in Hcalc.
  rewrite Hvideo, Hw, Hh, Htx in Hcalc. cbv zeta in Hcalc.
  cbn [width height] in Hcalc.
  assert (Hratio : (Fin vw / Fin vh)%num = Fin (vw / vh)).
  { unfold JSNum.div. by rewrite (sgn_positive vh Hvh). }
  rewrite Hratio in Hcalc.
  assert (Hreal : ∃ rw, ceil (Fin ch * Fin (vw / vh))%num = Fin rw ∧ 0 < rw).
  { unfold JSNum.mul. eexists. split; [reflexivity|].
    apply Qc_ceiling_positive.
    pose proof (Qc_div_positive vw vh Hvw Hvh) as Hr.
    replace 0 with (0 * (vw / vh)) by ring.
    by apply Qcmult_lt_compat_r. }
  destruct Hreal as (rw & Hrw & Hrwpos). rewrite Hrw in Hcalc.
  assert (Hleft : ∃ m, ((Fin cw - Fin rw) / ofZ 2)%num = Fin m).
  { unfold JSNum.sub, JSNum.neg, JSNum.add, JSNum.div, ofZ.
    change (sgn (Q2Qc (inject_Z 2))) with Pos. by eexists. }
  destruct Hleft as (m & Hm). rewrite Hm in Hcalc.
  destruct (_ || _) eqn:Htest in Hcalc; [discriminate|].
  apply (inj Some) in Hcalc. subst toc.
  lazy beta iota delta [x point position touch client cb_width].
  destruct (scale_accepted tx m rw vw Hrwpos (Qclt_le_weak _ _ Hvw) Htest)
    as (s & Hs & Hs0 & Hsv).
  exists s, rw. rewrite Hs. done.
Qed.

End Scaling.

(** ** The tracked region *)

Section RegionFacts.

Local Open Scope Qc_scope.

Lemma num_le_refl_fin (a : Qc) : (Fin a <=? Fin a)%num = true.
Proof. apply bool_decide_eq_true, Qcle_refl. Qed.

Lemma num_min_fin (a b : Qc) :
  ∃ c, JSNum.min (Fin a) (Fin b) = Fin c ∧
       (Fin c <=? Fin a)%num = true ∧ (Fin c <=? Fin b)%num = true.
Proof.
  unfold JSNum.min, JSNum.le. case_bool_decide as Hab.
  - exists a. rewrite !bool_decide_eq_true. by split; [|split; [apply Qcle_refl|]].
  - exists b. rewrite !bool_decide_eq_true.
    split; [done|]. split; [|apply Qcle_refl].
    apply Qcnot_le_lt in Hab. by apply Qclt_le_weak.
Qed.

Lemma num_max_fin (a b : Qc) :
  ∃ c, JSNum.max (Fin a) (Fin b) = Fin c ∧
       (Fin a <=? Fin c)%num = true ∧ (Fin b <=? Fin c)%num = true.
Proof.
  unfold JSNum.max, JSNum.le. case_bool_decide as Hab.
  - exists b. rewrite !bool_decide_eq_true. by split; [|split; [|apply Qcle_refl]].
  - exists a. rewrite !bool_decide_eq_true.
    split; [done|]. split; [apply Qcle_refl|].
    apply Qcnot_le_lt in Hab. by apply Qclt_le_weak.
Qed.

Lemma updateDirty_tracks topLeft bottomRight st :
  is_Some (dirtyPlace (updateDirty topLeft bottomRight st)).
Proof.
  unfold updateDirty. destruct (dirtyPlace st) as [[? ?]|]; by eexists.
Qed.

Lemma updateDirty_fields topLeft bottomRight st :
  multiTouchActive (updateDirty topLeft bottomRight st) = multiTouchActive st ∧
  multiTouchCenter (updateDirty topLeft bottomRight st) = multiTouchCenter st ∧
  multiTouchShift (updateDirty topLeft bottomRight st) = multiTouchShift st ∧
  idToPointerMap (updateDirty topLeft bottomRight st) = idToPointerMap st ∧
  pointerToIdMap (updateDirty topLeft bottomRight st) = pointerToIdMap st.
Proof.
  unfold updateDirty. by destruct (dirtyPlace st) as [[? ?]|].
Qed.

(** X8.  The tracked region only grows: with finite corners throughout, the
    region after [updateDirty] contains the mark that was recorded and the
    region that was tracked before; with nothing tracked before, it is the
    mark. *)
Theorem updateDirty_grows topLeft bottomRight st :
  finitePoint topLeft && finitePoint bottomRight = true →
  match dirtyPlace st with
  | None =>
      dirtyPlace (updateDirty topLeft bottomRight st)
      = Some (topLeft, bottomRight)
  | Some old =>
      finitePoint old.1 && finitePoint old.2 = true →
      ∃ new, dirtyPlace (updateDirty topLeft bottomRight st) = Some new ∧
             finitePoint new.1 && finitePoint new.2 = true ∧
             boxWithin (topLeft, bottomRight) new = true ∧
             boxWithin old new = true
  end.
Proof.
  intros Hmark. unfold updateDirty.
  destruct (dirtyPlace st) as [[[ox oy] [px py]]|]; [|done].
  destruct topLeft as [tx ty], bottomRight as [bx by'].
  unfold finitePoint in *. simpl in *. intros Hold.
  repeat (apply andb_prop in Hmark as [Hmark ?]).
  repeat (apply andb_prop in Hold as [Hold ?]).
  destruct tx as [tx| | |], ty as [ty| | |], bx as [bx| | |],
    by' as [by'| | |]; try discriminate.
  destruct ox as [ox| | |], oy as [oy| | |], px as [px| | |],
    py as [py| | |]; try discriminate.
  destruct (num_min_fin ox tx) as (x0 & -> & Hx0a & Hx0b).
  destruct (num_min_fin oy ty) as (y0 & -> & Hy0a & Hy0b).
  destruct (num_max_fin px bx) as (x1 & -> & Hx1a & Hx1b).
  destruct (num_max_fin py by') as (y1 & -> & Hy1a & Hy1b).
  eexists. split; [reflexivity|].
  lazy beta iota delta [boxWithin fst snd x y is_finite andb].
  rewrite Hx0a, Hx0b, Hy0a, Hy0b, Hx1a, Hx1b, Hy1a, Hy1b. done.
Qed.

End RegionFacts.

(** ** The simulator and [buildTouchEvent] *)

Section MousePath.

Context {ME : MotionEvent}.

Implicit Types (st : TouchHandler) (e : MouseEvent).

Lemma clearCanvas_calls tgt st :
  (clearCanvas tgt st).2 = [] ∨
  ∃ rx ry rw rh, (clearCanvas tgt st).2 = [ClearRect rx ry rw rh].
Proof.
  unfold clearCanvas. destruct (context2d tgt); [|by left].
  destruct (dirtyPlace st) as [[? ?]|]; [right; by do 4 eexists|by left].
Qed.

Lemma drawCircle_fields ctx p r st :
  multiTouchActive (drawCircle ctx p r st).1 = multiTouchActive st ∧
  multiTouchCenter (drawCircle ctx p r st).1 = multiTouchCenter st ∧
  multiTouchShift (drawCircle ctx p r st).1 = multiTouchShift st ∧
  idToPointerMap (drawCircle ctx p r st).1 = idToPointerMap st ∧
  pointerToIdMap (drawCircle ctx p r st).1 = pointerToIdMap st ∧
  is_Some (dirtyPlace (drawCircle ctx p r st).1) ∧
  Arc (x p) (y p) r ∈ (drawCircle ctx p r st).2.
Proof.
  unfold drawCircle. simpl.
  destruct (updateDirty_fields
              (mkPoint (x p - r - lineWidth ctx) (y p - r - lineWidth ctx))
              (mkPoint (x p + r + lineWidth ctx) (y p + r + lineWidth ctx)) st)
    as (-> & -> & -> & -> & ->).
  repeat split; [apply updateDirty_tracks|]. set_solver.
Qed.

Lemma drawTouches_fields ctx touches st :
  multiTouchActive (drawTouches ctx touches st).1 = multiTouchActive st ∧
  multiTouchCenter (drawTouches ctx touches st).1 = multiTouchCenter st ∧
  multiTouchShift (drawTouches ctx touches st).1 = multiTouchShift st ∧
  idToPointerMap (drawTouches ctx touches st).1 = idToPointerMap st ∧
  pointerToIdMap (drawTouches ctx touches st).1 = pointerToIdMap st ∧
  (is_Some (dirtyPlace st) ∨ touches ≠ [] →
     is_Some (dirtyPlace (drawTouches ctx touches st).1)) ∧
  ∀ t, t ∈ touches →
    Arc (x (point (position t))) (y (point (position t))) CURSOR_RADIUS
    ∈ (drawTouches ctx touches st).2.
Proof.
  revert st. induction touches as [|t touches IH]; intros st.
  - simpl. repeat split; try done.
    + intros [?|?]; done.
    + intros t Ht. by apply elem_of_nil in Ht.
  - change (drawTouches ctx (t :: touches) st) with
      (let '(st1, ops1) := drawCircle ctx (point (position t)) CURSOR_RADIUS st in
       let ops2 := match multiTouchCenter st1 with
                   | Some center => drawLine (point (position t)) center
                   | None => []
                   end in
       let '(st2, ops3) := drawTouches ctx touches st1 in
       (st2, ops1 ++ ops2 ++ ops3)).
    destruct (drawCircle_fields ctx (point (position t)) CURSOR_RADIUS st)
      as (H1 & H2 & H3 & H4 & H5 & H6 & H7).
    destruct (drawCircle ctx (point (position t)) CURSOR_RADIUS st)
      as [st1 ops1]. cbn [fst snd] in *.
    destruct (IH st1) as (G1 & G2 & G3 & G4 & G5 & G6 & G7).
    destruct (drawTouches ctx touches st1) as [st2 ops3]. cbn [fst snd] in *.
    rewrite G1, G2, G3, G4, G5, H1, H2, H3, H4, H5.
    repeat split; try done.
    + intros _. apply G6. by left.
    + intros t' Ht'. apply elem_of_cons in Ht' as [->|Ht'].
      * apply elem_of_app. by left.
      * apply elem_of_app. right. apply elem_of_app. right. by apply G7.
Qed.

(** What [getTouch] leaves alone. *)
Lemma getTouch_fields htmlTag e screenInfo st :
  idToPointerMap (getTouch htmlTag e screenInfo st).1.2 = idToPointerMap st ∧
  pointerToIdMap (getTouch htmlTag e screenInfo st).1.2 = pointerToIdMap st ∧
  dirtyPlace (getTouch htmlTag e screenInfo st).1.2 = dirtyPlace st.
Proof.
  unfold getTouch.
  destruct (calculateCoordinates _ _ _) as [toc|]; [|done].
  destruct (ctrlKey e); simpl.
  - destruct (multiTouchActive st); simpl.
    + destruct (multiTouchShift st), (multiTouchCenter st);
        try destruct (_ && _); done.
    + destruct (shiftKey e); simpl.
      * by destruct (_ && _).
      * by destruct (multiTouchShift st); try destruct (_ && _).
  - pose proof (clearCanvas_state (target (me_common e))
                  (set_multiTouch false None false st)) as Hst.
    destruct (clearCanvas _ _) as [st1 ops]. simpl in *. by subst st1.
Qed.

(** X15.  Whatever [getTouch] answers starts with the touch the event was mapped
    to; a second touch follows only with [ctrl] held, and differs from the
    first in its point alone. *)
Lemma getTouch_shape htmlTag e screenInfo st touches :
  (getTouch htmlTag e screenInfo st).1.1 = Some touches →
  ∃ toc, calculateCoordinates htmlTag (me_common e) screenInfo = Some toc ∧
    (touches = [touch toc] ∨
     ctrlKey e = true ∧
     ∃ opposite,
       touches = [touch toc;
                  mkTouch (action (touch toc))
                          (mkPosition opposite (screenSize (position (touch toc))))
                          (buttons (touch toc))]).
Proof.
  unfold getTouch.
  destruct (calculateCoordinates _ _ _) as [toc|]; [|done].
  intros Hres. exists toc. split; [done|].
  destruct (ctrlKey e); simpl in Hres.
  - match type of Hres with
    | (match ?o with _ => _ end).1.1 = _ => destruct o as [opp|]
    end; simpl in Hres; injection Hres as <-.
    + right. split; [done|]. by eexists.
    + by left.
  - destruct (clearCanvas _ _) as [st1 ops]. simpl in Hres.
    injection Hres as <-. by left.
Qed.

Lemma getTouch_consistent htmlTag e screenInfo st :
  simulationConsistent st →
  simulationConsistent (getTouch htmlTag e screenInfo st).1.2.
Proof.
  intros Hc. unfold getTouch.
  destruct (calculateCoordinates _ _ _) as [toc|]; [|done].
  destruct (ctrlKey e); simpl.
  - unfold simulationConsistent in Hc.
    destruct (multiTouchActive st) eqn:Hact; simpl.
    + destruct (multiTouchShift st), (multiTouchCenter st);
        try destruct (_ && _); unfold simulationConsistent; simpl;
        by try destruct Hc.
    + destruct (shiftKey e); simpl.
      * destruct (_ && _); unfold simulationConsistent; simpl; by eexists.
      * destruct (multiTouchShift st); try destruct (_ && _);
          unfold simulationConsistent; simpl; by eexists.
  - pose proof (clearCanvas_state (target (me_common e))
                  (set_multiTouch false None false st)) as Hst.
    destruct (clearCanvas _ _) as [st1 ops]. simpl in *. by subst st1.
Qed.

(** The drawing that [buildTouchEvent] adds after [getTouch]: it leaves the
    simulation state and the maps as [getTouch] left them, and it empties no
    tracked region. *)
Lemma buildTouchEvent_after_getTouch htmlTag e screenInfo st :
  let g := getTouch htmlTag e screenInfo st in
  let b := buildTouchEvent htmlTag e screenInfo st in
  multiTouchActive b.1.2 = multiTouchActive g.1.2 ∧
  multiTouchCenter b.1.2 = multiTouchCenter g.1.2 ∧
  multiTouchShift b.1.2 = multiTouchShift g.1.2 ∧
  idToPointerMap b.1.2 = idToPointerMap g.1.2 ∧
  pointerToIdMap b.1.2 = pointerToIdMap g.1.2 ∧
  (is_Some (dirtyPlace g.1.2) → is_Some (dirtyPlace b.1.2)).
Proof.
  cbv zeta. unfold buildTouchEvent.
  destruct (getTouch htmlTag e screenInfo st) as [[[touches|] st1] ops];
    [|done].
  lazy beta iota zeta delta [fst snd].
  destruct (multiTouchActive st1) eqn:Hact; [|by rewrite Hact].
  destruct (context2d (target (me_common e))) as [ctx|]; [|by rewrite Hact].
  pose proof (clearCanvas_state (target (me_common e)) st1) as Hst.
  destruct (clearCanvas _ _) as [st2 ops1]. cbn [fst] in Hst. subst st2.
  destruct (drawTouches_fields ctx touches st1)
    as (H1 & H2 & H3 & H4 & H5 & H6 & _).
  destruct (drawTouches ctx touches st1) as [st3 ops2]. cbn [fst snd] in *.
  destruct (multiTouchCenter st3) as [center|] eqn:Hcen.
  - destruct (drawCircle_fields ctx center (ofZ 5) st3)
      as (G1 & G2 & G3 & G4 & G5 & G6 & _).
    destruct (drawCircle ctx center (ofZ 5) st3) as [st4 ops3].
    cbn [fst snd] in *.
    rewrite G1, G2, G3, G4, G5, H1, H3, H4, H5, Hcen, <- H2. done.
  - lazy beta iota zeta delta [fst snd].
    rewrite H1, H3, H4, H5, Hcen, <- H2.
    repeat split; try done. intros Hd. apply H6. by left.
Qed.

(** X9.  The simulation state stays consistent through every mouse event: it has
    a centre exactly while it is active, and is anchored by shift only while
    it is active. *)
Theorem buildTouchEvent_consistent htmlTag e screenInfo st :
  simulationConsistent st →
  simulationConsistent (buildTouchEvent htmlTag e screenInfo st).1.2.
Proof.
  intros Hc.
  pose proof (getTouch_consistent htmlTag e screenInfo st Hc) as Hg.
  destruct (buildTouchEvent_after_getTouch htmlTag e screenInfo st)
    as (H1 & H2 & H3 & _).
  unfold simulationConsistent in *. by rewrite H1, H2, H3.
Qed.

(** X10.  While a simulation is active and [ctrl] stays held, its centre and its
    anchoring are fixed: a mouse event changes none of the three fields,
    whether it maps to a touch or not. *)
Theorem buildTouchEvent_centre_fixed htmlTag e screenInfo st :
  multiTouchActive st = true →
  ctrlKey e = true →
  multiTouchActive (buildTouchEvent htmlTag e screenInfo st).1.2 = true ∧
  multiTouchCenter (buildTouchEvent htmlTag e screenInfo st).1.2
  = multiTouchCenter st ∧
  multiTouchShift (buildTouchEvent htmlTag e screenInfo st).1.2
  = multiTouchShift st.
Proof.
  intros Hact Hctrl.
  destruct (buildTouchEvent_after_getTouch htmlTag e screenInfo st)
    as (-> & -> & -> & _).
  unfold getTouch.
  destruct (calculateCoordinates _ _ _) as [toc|]; [|done].
  rewrite Hctrl, Hact. simpl.
  destruct (multiTouchShift st), (multiTouchCenter st);
    try destruct (_ && _); done.
Qed.

(** X11.  No mouse event touches the allocator, and none empties the
    tracked region: after [buildTouchEvent] both maps are as before, in
    every state, and a region that was tracked is still tracked. *)
Theorem buildTouchEvent_frame htmlTag e screenInfo st :
  idToPointerMap (buildTouchEvent htmlTag e screenInfo st).1.2
  = idToPointerMap st ∧
  pointerToIdMap (buildTouchEvent htmlTag e screenInfo st).1.2
  = pointerToIdMap st ∧
  (is_Some (dirtyPlace st) →
   is_Some (dirtyPlace (buildTouchEvent htmlTag e screenInfo st).1.2)).
Proof.
  destruct (buildTouchEvent_after_getTouch htmlTag e screenInfo st)
    as (_ & _ & _ & -> & -> & Hkeep).
  destruct (getTouch_fields htmlTag e screenInfo st) as (-> & -> & Hsame).
  split; [done|]. split; [done|]. intros Hd. apply Hkeep. by rewrite Hsame.
Qed.

End MousePath.

Section MouseEvents.

Context {ME : MotionEvent}.

Implicit Types (st : TouchHandler) (e : MouseEvent).



(** X13.  A mouse event without [ctrl] that maps to a touch gives exactly one
    event, numbered 0, and draws no overlay: the canvas receives at most the
    one [clearRect] of [clearCanvas], and the simulation is stopped. *)
Theorem buildTouchEvent_without_ctrl htmlTag e screenInfo st toc :
  ctrlKey e = false →
  calculateCoordinates htmlTag (me_common e) screenInfo = Some toc →
  (buildTouchEvent htmlTag e screenInfo st).1.1
  = Some [mkTouchControlEvent (action (touch toc)) 0 (position (touch toc))
            (ofZ 255) (buttons (touch toc))] ∧
  (buildTouchEvent htmlTag e screenInfo st).1.2
  = set_multiTouch false None false st ∧
  ((buildTouchEvent htmlTag e screenInfo st).2 = [] ∨
   ∃ rx ry rw rh,
     (buildTouchEvent htmlTag e screenInfo st).2 = [ClearRect rx ry rw rh]).
Proof.
  intros Hctrl Hcalc. unfold buildTouchEvent, getTouch.
  rewrite Hcalc, Hctrl. cbn [negb].
  pose proof (clearCanvas_state (target (me_common e))
                (set_multiTouch false None false st)) as Hst.
  pose proof (clearCanvas_calls (target (me_common e))
                (set_multiTouch false None false st)) as Hops.
  destruct (clearCanvas _ _) as [st1 ops]. cbn [fst snd] in *. subst st1.
  cbn. rewrite app_nil_r. done.
Qed.

Lemma getTouch_with_ctrl htmlTag e screenInfo st toc :
  ctrlKey e = true →
  calculateCoordinates htmlTag (me_common e) screenInfo = Some toc →
  ∃ touches st1,
    getTouch htmlTag e screenInfo st = (Some touches, st1, []) ∧
    touch toc ∈ touches ∧
    multiTouchActive st1 = true ∧
    (multiTouchActive st = false → shiftKey e = false →
       multiTouchCenter st1
       = Some (mkPoint (cb_width (client toc) / ofZ 2)%num
                       (cb_height (client toc) / ofZ 2)%num)) ∧
    (multiTouchActive st = false → shiftKey e = true →
       multiTouchCenter st1 = Some (point (position (touch toc)))).
Proof.
  intros Hctrl Hcalc. unfold getTouch. rewrite Hcalc, Hctrl. cbn [negb].
  match goal with
  | |- ∃ _ _, (match ?o with _ => _ end) = _ ∧ _ => destruct o as [opp|]
  end; do 2 eexists; (split; [reflexivity|]);
    (split; [set_solver|]); (split; [reflexivity|]);
    split; intros -> ->; reflexivity.
Qed.

(** X14.  A mouse event with [ctrl] that maps to a touch on a canvas is marked on
    the overlay: the simulation is active afterwards, a circle of the cursor
    radius is drawn at the touch, and a region is tracked for the next
    [clearCanvas]. *)
Theorem buildTouchEvent_with_ctrl htmlTag e screenInfo st toc ctx :
  ctrlKey e = true →
  calculateCoordinates htmlTag (me_common e) screenInfo = Some toc →
  context2d (target (me_common e)) = Some ctx →
  multiTouchActive (buildTouchEvent htmlTag e screenInfo st).1.2 = true ∧
  is_Some (dirtyPlace (buildTouchEvent htmlTag e screenInfo st).1.2) ∧
  Arc (x (point (position (touch toc)))) (y (point (position (touch toc))))
      CURSOR_RADIUS
  ∈ (buildTouchEvent htmlTag e screenInfo st).2.
Proof.
  intros Hctrl Hcalc Hctx.
  destruct (getTouch_with_ctrl htmlTag e screenInfo st toc Hctrl Hcalc)
    as (touches & st1 & Hget & Hin & Hact & _).
  unfold buildTouchEvent. rewrite Hget, Hact, Hctx.
  pose proof (clearCanvas_state (target (me_common e)) st1) as Hst.
  destruct (clearCanvas _ _) as [st2 ops1]. cbn [fst] in Hst. subst st2.
  destruct (drawTouches_fields ctx touches st1)
    as (H1 & H2 & _ & _ & _ & H6 & H7).
  specialize (H7 _ Hin).
  destruct (drawTouches ctx touches st1) as [st3 ops2]. cbn [fst snd] in *.
  assert (Htracked : is_Some (dirtyPlace st3)).
  { apply H6. right. intros ->. by apply elem_of_nil in Hin. }
  destruct (multiTouchCenter st3) as [center|].
  - destruct (drawCircle_fields ctx center (ofZ 5) st3)
      as (G1 & _ & _ & _ & _ & G6 & _).
    destruct (drawCircle ctx center (ofZ 5) st3) as [st4 ops3].
    cbn [fst snd] in *. rewrite G1, H1. split; [done|]. split; [done|].
    set_solver.
  - cbn [fst snd]. rewrite H1. split; [done|]. split; [done|]. set_solver.
Qed.

End MouseEvents.

Section ShiftStart.

Context {ME : MotionEvent}.

Local Open Scope Qc_scope.

Lemma reflected_self_fin (q : Qc) : (ofZ 2 * Fin q - Fin q)%num = Fin q.
Proof.
  unfold ofZ, JSNum.mul, JSNum.sub, JSNum.neg, JSNum.add. f_equal.
  apply Qc_is_canon. qc_arith. ring.
Qed.

(** X16.  A simulation that starts with shift held starts with both contacts on
    one point: the touch is its own mirror image through the centre, so,
    when it lies within the video, it is answered twice. *)
Theorem getTouch_shift_start htmlTag e screenInfo st toc :
  ctrlKey e = true → shiftKey e = true →
  multiTouchActive st = false →
  calculateCoordinates htmlTag (me_common e) screenInfo = Some toc →
  finitePoint (point (position (touch toc))) = true →
  inScreen (point (position (touch toc)))
           (screenSize (position (touch toc))) = true →
  getTouch htmlTag e screenInfo st =
    (Some [touch toc; touch toc],
     set_multiTouch true (Some (point (position (touch toc)))) true st, []).
Proof.
  intros Hctrl Hshift Hact Hcalc Hfin Hin.
  unfold getTouch. rewrite Hcalc, Hctrl, Hact, Hshift.
  destruct toc as [cl [act [[px py] sz] btn]].
  unfold finitePoint in Hfin. cbn [touch position point x y] in Hfin.
  apply andb_prop in Hfin as [Hfx Hfy].
  destruct px as [px| | |]; try discriminate.
  destruct py as [py| | |]; try discriminate.
  lazy beta iota zeta delta
    [negb touch client position point screenSize x y action buttons
     set_multiTouch multiTouchActive multiTouchCenter multiTouchShift
     dirtyPlace idToPointerMap pointerToIdMap].
  rewrite !reflected_self_fin.
  unfold inScreen in Hin. cbn [touch position point screenSize x y] in Hin.
  rewrite Hin. reflexivity.
Qed.

End ShiftStart.

(** ** The events of a batch *)

Section TouchBatches.

Context {ME : MotionEvent}.

Lemma formatTouches_events htmlTag e screenInfo tag touches events st
    (P : TouchControlEvent → Prop) :
  (∀ t toc p, t ∈ touches → elemId (dt_target t) = elemId tag →
     calculateCoordinates htmlTag
       (mkCommon (dt_clientX t) (dt_clientY t) (te_type e) (te_target e) 0)
       screenInfo = Some toc →
     P (mkTouchControlEvent (action (touch toc)) p (position (touch toc))
          (force t * ofZ 255)%num (buttons (touch toc)))) →
  Forall P events →
  Forall P (formatTouches htmlTag e screenInfo tag touches events st).1.
Proof.
  revert events st.
  induction touches as [|t touches IH]; intros events st Hnew Hev; [done|].
  simpl. destruct (getPointerId (te_type e) (identifier t) st) as [p st1].
  assert (Hrest : ∀ t' toc p', t' ∈ touches →
            elemId (dt_target t') = elemId tag →
            calculateCoordinates htmlTag
              (mkCommon (dt_clientX t') (dt_clientY t') (te_type e)
                 (te_target e) 0) screenInfo = Some toc →
            P (mkTouchControlEvent (action (touch toc)) p'
                 (position (touch toc)) (force t' * ofZ 255)%num
                 (buttons (touch toc)))).
  { intros t' toc p' Ht'. apply Hnew. by right. }
  destruct (Nat.eqb_spec (elemId (dt_target t)) (elemId tag)) as [Heq|Hne];
    cbn [negb]; [|by apply IH].
  destruct (calculateCoordinates _ _ _) as [[cl [act pos btn]]|] eqn:Hcalc;
    [|by apply IH].
  apply IH; [done|]. apply Forall_app. split; [done|].
  constructor; [|done].
  apply (Hnew t _ p (list_elem_of_here _ _) Heq Hcalc).
Qed.

(** X17.  Every event of a batch comes from a contact of the batch that is on the
    given element: it has that contact's force times 255 as pressure, the
    action of the event's type, the buttons of index 0 (17) and the size of
    the video as its screen size. *)
Theorem formatTouchEvent_events htmlTag e screenInfo tag st :
  Forall (fromBatch e screenInfo tag)
    (default [] (formatTouchEvent htmlTag e screenInfo tag st).1).
Proof.
  unfold formatTouchEvent.
  pose proof (formatTouches_events htmlTag e screenInfo tag (changedTouches e)
                [] st (fromBatch e screenInfo tag)) as Hall.
  destruct (formatTouches _ _ _ _ _ _ _) as [events st'].
  assert (Hev : Forall (fromBatch e screenInfo tag) events).
  { apply Hall; [|done]. intros t toc p Ht Htag Hcalc.
    destruct (calculateCoordinates_Some _ _ _ _ Hcalc)
      as (si & a & -> & Ha & Hact & Hsize & Hbtn).
    exists t. cbn in *. rewrite Hact, Hsize, Hbtn. by repeat split. }
  by destruct events.
Qed.

(** X18.  A touch event that comes without screen info, or whose type is
    neither in the table nor a name inherited from [Object.prototype], gives
    [null], whatever its contacts are. *)
Theorem formatTouchEvent_dropped htmlTag e screenInfo tag st :
  screenInfo = None
  ∨ (EVENT_ACTION_MAP (te_type e) = None ∧
     te_type e ∉ objectPrototypeNames) →
  (formatTouchEvent htmlTag e screenInfo tag st).1 = None.
Proof.
  intros Hdrop. unfold formatTouchEvent.
  pose proof (formatTouches_events htmlTag e screenInfo tag (changedTouches e)
                [] st (λ _, False)) as Hall.
  destruct (formatTouches _ _ _ _ _ _ _) as [events st'].
  destruct events as [|ev events]; [done|]. exfalso.
  assert (Hnone : Forall (λ _ : TouchControlEvent, False) (ev :: events)).
  { apply Hall; [|done]. intros t toc p _ _ Hcalc.
    destruct (calculateCoordinates_Some _ _ _ _ Hcalc)
      as (si & a & Hsi & Ha & _).
    cbn in Ha. destruct Hdrop as [?|[? _]]; congruence. }
  by apply Forall_cons in Hnone as [? _].
Qed.

End TouchBatches.

(** ** The further properties on concrete events *)

Lemma formatTouchEvent_keeps_mirror_witness :
  let tag := canvasOf 1 960 540 in
  let e := mkTouchEvent "touchstart" tag
             [mkDomTouch 5 tag (ofZ 10) (ofZ 10) (ofZ 1);
              mkDomTouch 7 tag (ofZ 20) (ofZ 20) (ofZ 1)] in
  mirrored initial ∧
  mirrored (formatTouchEvent (ME := androidMotionEvent) unscrolled e
              (Some fullHD) tag initial).2.
Proof.
  cbv zeta.
  assert (H0 : mirrored initial) by (intros p i Hp; by simpl in Hp).
  split; [exact H0|].
  exact (formatTouchEvent_keeps_mirror (ME := androidMotionEvent) unscrolled
           _ (Some fullHD) (canvasOf 1 960 540) initial H0).
Defined.

Lemma formatTouchEvent_ids_nonneg_witness :
  let tag := canvasOf 1 960 540 in
  let e := mkTouchEvent "touchstart" tag
             [mkDomTouch 5 tag (ofZ 10) (ofZ 10) (ofZ 1)] in
  idsNonNegative initial ∧
  Forall (λ ev, 0 ≤ tce_pointerId ev)
    (default [] (formatTouchEvent (ME := androidMotionEvent) unscrolled e
                   (Some fullHD) tag initial).1).
Proof.
  cbv zeta.
  assert (H0 : idsNonNegative initial) by (intros i p Hp; by simpl in Hp).
  split; [exact H0|].
  exact (proj1 (formatTouchEvent_ids_nonneg (ME := androidMotionEvent)
                  unscrolled _ (Some fullHD) (canvasOf 1 960 540) initial H0)).
Defined.

Lemma formatTouchEvent_frame_witness :
  let tag := canvasOf 1 960 540 in
  let e := mkTouchEvent "touchend" tag
             [mkDomTouch 5 tag (ofZ 10) (ofZ 10) (ofZ 1)] in
  let st := acquireAll [("touchstart", 5); ("touchstart", 9)]%string initial in
  let r := formatTouchEvent (ME := androidMotionEvent) unscrolled e
             (Some fullHD) tag st in
  (9 ∉ identifiersOf (changedTouches e)) ∧
  idToPointerMap r.2 !! 9 = idToPointerMap st !! 9.
Proof.
  cbv zeta.
  assert (H9 : 9 ∉ identifiersOf
            (changedTouches
               (mkTouchEvent "touchend" (canvasOf 1 960 540)
                  [mkDomTouch 5 (canvasOf 1 960 540) (ofZ 10) (ofZ 10) (ofZ 1)]))).
  { cbn. intros H. apply list_elem_of_singleton in H. lia. }
  split; [exact H9|].
  exact (proj1 (formatTouchEvent_frame (ME := androidMotionEvent) unscrolled
                  _ (Some fullHD) (canvasOf 1 960 540) _ 9 H9)).
Defined.

Lemma getPointerId_acquire_release_witness :
  let r1 := getPointerId "touchstart" 5 initial in
  let r2 := getPointerId "touchend" 5 r1.2 in
  idToPointerMap initial !! 5 = None ∧ isTermination "touchend" = true ∧
  r2.1 = r1.1 ∧ idToPointerMap r2.2 = idToPointerMap initial.
Proof.
  cbv zeta.
  destruct (getPointerId_acquire_release "touchstart" "touchend" 5 initial
              eq_refl eq_refl) as (H1 & H2 & _).
  split; [reflexivity|]. split; [reflexivity|]. split; [exact H1|exact H2].
Defined.

Lemma calculateCoordinates_corners_witness :
  let tgt := canvasOf 1 960 540 in
  (λ toc, point (position (touch toc)))
    <$> calculateCoordinates (ME := androidMotionEvent) unscrolled
          (me_common (mouseMove 0 0 tgt false false)) (Some fullHD)
  = Some (mkPoint (ofZ 0) (ofZ 0)) ∧
  (λ toc, point (position (touch toc)))
    <$> calculateCoordinates (ME := androidMotionEvent) unscrolled
          (me_common (mouseMove 960 540 tgt false false)) (Some fullHD)
  = Some (mkPoint (ofZ 1920) (ofZ 1080)).
Proof.
  cbv zeta.
  assert (Haspect : shouldBeOf (videoSize fullHD)
                    = haveNowOf (canvasOf 1 960 540))
    by (vm_compute; num_eq).
  split.
  - apply (calculateCoordinates_corners (ME := androidMotionEvent) unscrolled
             (me_common (mouseMove 0 0 (canvasOf 1 960 540) false false))
             fullHD 2 (Q2Qc (inject_Z 960)) (Q2Qc (inject_Z 540))
             (Q2Qc (inject_Z 1920)) (Q2Qc (inject_Z 1080))
             eq_refl eq_refl eq_refl eq_refl eq_refl eq_refl Haspect);
      vm_compute; num_eq.
  - apply (calculateCoordinates_corners (ME := androidMotionEvent) unscrolled
             (me_common (mouseMove 960 540 (canvasOf 1 960 540) false false))
             fullHD 2 (Q2Qc (inject_Z 960)) (Q2Qc (inject_Z 540))
             (Q2Qc (inject_Z 1920)) (Q2Qc (inject_Z 1080))
             eq_refl eq_refl eq_refl eq_refl eq_refl eq_refl Haspect);
      vm_compute; num_eq.
Defined.

Lemma calculateCoordinates_rows_in_video_witness :
  let c := me_common (mouseMove 500 500 (canvasOf 1 1000 1000) false false) in
  ∃ toc yv,
    calculateCoordinates (ME := androidMotionEvent) unscrolled c (Some fullHD)
    = Some toc ∧
    y (point (position (touch toc))) = Fin yv ∧
    (0 ≤ yv)%Qc ∧ (yv ≤ Q2Qc (inject_Z 1080))%Qc.
Proof.
  cbv zeta.
  destruct (calculateCoordinates (ME := androidMotionEvent) unscrolled
              (me_common (mouseMove 500 500 (canvasOf 1 1000 1000) false false))
              (Some fullHD)) as [toc|] eqn:Hcalc;
    [|vm_compute in Hcalc; discriminate Hcalc].
  assert (Hwide : (shouldBeOf (videoSize fullHD)
                   >? haveNowOf (canvasOf 1 1000 1000))%num = true)
    by (vm_compute; reflexivity).
  destruct (calculateCoordinates_rows_in_video (ME := androidMotionEvent)
              unscrolled
              (me_common (mouseMove 500 500 (canvasOf 1 1000 1000) false false))
              fullHD 2 (Q2Qc (inject_Z 1000)) (Q2Qc (inject_Z 1000))
              (Q2Qc (inject_Z 1920)) (Q2Qc (inject_Z 1080))
              (Q2Qc (inject_Z 500) + - Q2Qc (inject_Z 0) + Q2Qc (inject_Z 0))%Qc
              toc eq_refl eq_refl eq_refl eq_refl eq_refl eq_refl eq_refl
              eq_refl Hwide Hcalc) as (yv & rh & Hy & H0 & H1 & _ & _).
  exists toc, yv. repeat split; assumption.
Defined.

Lemma calculateCoordinates_columns_in_video_witness :
  let c := me_common (mouseMove 500 50 (canvasOf 1 1000 100) false false) in
  ∃ toc xv,
    calculateCoordinates (ME := androidMotionEvent) unscrolled c (Some fullHD)
    = Some toc ∧
    x (point (position (touch toc))) = Fin xv ∧
    (0 ≤ xv)%Qc ∧ (xv ≤ Q2Qc (inject_Z 1920))%Qc.
Proof.
  cbv zeta.
  destruct (calculateCoordinates (ME := androidMotionEvent) unscrolled
              (me_common (mouseMove 500 50 (canvasOf 1 1000 100) false false))
              (Some fullHD)) as [toc|] eqn:Hcalc;
    [|vm_compute in Hcalc; discriminate Hcalc].
  assert (Hnarrow : (shouldBeOf (videoSize fullHD)
                     <? haveNowOf (canvasOf 1 1000 100))%num = true)
    by (vm_compute; reflexivity).
  assert (Hnotwide : (shouldBeOf (videoSize fullHD)
                      >? haveNowOf (canvasOf 1 1000 100))%num = false)
    by (vm_compute; reflexivity).
  destruct (calculateCoordinates_columns_in_video (ME := androidMotionEvent)
              unscrolled
              (me_common (mouseMove 500 50 (canvasOf 1 1000 100) false false))
              fullHD 2 (Q2Qc (inject_Z 1000)) (Q2Qc (inject_Z 100))
              (Q2Qc (inject_Z 1920)) (Q2Qc (inject_Z 1080))
              (Q2Qc (inject_Z 500) + - Q2Qc (inject_Z 0) + Q2Qc (inject_Z 0))%Qc
              toc eq_refl eq_refl eq_refl eq_refl eq_refl eq_refl eq_refl
              eq_refl Hnarrow Hnotwide Hcalc) as (xv & rw & Hx & H0 & H1 & _ & _).
  exists toc, xv. repeat split; assumption.
Defined.

Lemma updateDirty_grows_witness :
  let topLeft := mkPoint (ofZ 0) (ofZ 0) in
  let bottomRight := mkPoint (ofZ 10) (ofZ 10) in
  ∃ new,
    dirtyPlace (updateDirty topLeft bottomRight afterCircle) = Some new ∧
    boxWithin (topLeft, bottomRight) new = true.
Proof.
  cbv zeta.
  pose proof (updateDirty_grows (mkPoint (ofZ 0) (ofZ 0))
                (mkPoint (ofZ 10) (ofZ 10)) afterCircle eq_refl) as Hgrow.
  destruct (dirtyPlace afterCircle) as [old|] eqn:Hold;
    [|vm_compute in Hold; discriminate Hold].
  destruct Hgrow as (new & Hnew & _ & Hmark & _).
  - vm_compute in Hold. injection Hold as <-. reflexivity.
  - exists new. done.
Defined.

Lemma buildTouchEvent_consistent_witness :
  simulationConsistent initial ∧
  simulationConsistent
    (buildTouchEvent (ME := androidMotionEvent) unscrolled
       (mouseMove 900 500 (canvasOf 1 960 540) true true)
       (Some fullHD) initial).1.2.
Proof.
  assert (H0 : simulationConsistent initial) by (by split).
  split; [exact H0|].
  exact (buildTouchEvent_consistent (ME := androidMotionEvent) unscrolled
           _ (Some fullHD) initial H0).
Defined.

Lemma buildTouchEvent_centre_fixed_witness :
  let st := set_multiTouch true (Some (mkPoint (ofZ 480) (ofZ 270))) false
              initial in
  let e := mouseMove 900 500 (canvasOf 1 960 540) true true in
  multiTouchActive st = true ∧ ctrlKey e = true ∧
  multiTouchCenter (buildTouchEvent (ME := androidMotionEvent) unscrolled e
                      (Some fullHD) st).1.2
  = Some (mkPoint (ofZ 480) (ofZ 270)) ∧
  multiTouchShift (buildTouchEvent (ME := androidMotionEvent) unscrolled e
                     (Some fullHD) st).1.2 = false.
Proof.
  cbv zeta.
  destruct (buildTouchEvent_centre_fixed (ME := androidMotionEvent) unscrolled
              (mouseMove 900 500 (canvasOf 1 960 540) true true)
              (Some fullHD)
              (set_multiTouch true (Some (mkPoint (ofZ 480) (ofZ 270))) false
                 initial) eq_refl eq_refl) as (_ & Hcen & Hshift).
  split; [reflexivity|]. split; [reflexivity|]. split; [exact Hcen|exact Hshift].
Defined.

Lemma buildTouchEvent_frame_witness :
  let e := mouseMove 900 500 (canvasOf 1 960 540) true false in
  let st := acquireAll [("touchstart", 5)]%string afterCircle in
  idToPointerMap (buildTouchEvent (ME := androidMotionEvent) unscrolled e
                    (Some fullHD) initial).1.2 = idToPointerMap initial ∧
  idToPointerMap (buildTouchEvent (ME := androidMotionEvent) unscrolled e
                    (Some fullHD) st).1.2 = idToPointerMap st ∧
  is_Some (dirtyPlace st) ∧
  is_Some (dirtyPlace (buildTouchEvent (ME := androidMotionEvent) unscrolled e
                         (Some fullHD) st).1.2).
Proof.
  cbv zeta.
  assert (Hd : is_Some (dirtyPlace
                          (acquireAll [("touchstart", 5)]%string afterCircle)))
    by (vm_compute; by eexists).
  destruct (buildTouchEvent_frame (ME := androidMotionEvent) unscrolled
              (mouseMove 900 500 (canvasOf 1 960 540) true false)
              (Some fullHD) initial) as (H0 & _ & _).
  destruct (buildTouchEvent_frame (ME := androidMotionEvent) unscrolled
              (mouseMove 900 500 (canvasOf 1 960 540) true false)
              (Some fullHD)
              (acquireAll [("touchstart", 5)]%string afterCircle))
    as (H1 & _ & H3).
  split; [exact H0|]. split; [exact H1|]. split; [exact Hd|exact (H3 Hd)].
Defined.


Lemma buildTouchEvent_without_ctrl_witness :
  let e := mouseMove 900 500 (canvasOf 1 960 540) false false in
  ctrlKey e = false ∧
  length <$> (buildTouchEvent (ME := androidMotionEvent) unscrolled e
                (Some fullHD) afterCircle).1.1 = Some 1%nat ∧
  (buildTouchEvent (ME := androidMotionEvent) unscrolled e (Some fullHD)
     afterCircle).1.2
  = set_multiTouch false None false afterCircle.
Proof.
  cbv zeta.
  destruct (calculateCoordinates (ME := androidMotionEvent) unscrolled
              (me_common (mouseMove 900 500 (canvasOf 1 960 540) false false))
              (Some fullHD)) as [toc|] eqn:Hcalc;
    [|vm_compute in Hcalc; discriminate Hcalc].
  destruct (buildTouchEvent_without_ctrl (ME := androidMotionEvent) unscrolled
              (mouseMove 900 500 (canvasOf 1 960 540) false false)
              (Some fullHD) afterCircle toc eq_refl Hcalc) as (Hev & Hst & _).
  split; [reflexivity|]. split; [by rewrite Hev|exact Hst].
Defined.

Lemma buildTouchEvent_with_ctrl_witness :
  let e := mouseMove 900 500 (canvasOf 1 960 540) true false in
  ctrlKey e = true ∧
  context2d (target (me_common e)) = Some (mkContext2D (ofZ 1)) ∧
  multiTouchActive (buildTouchEvent (ME := androidMotionEvent) unscrolled e
                      (Some fullHD) initial).1.2 = true ∧
  is_Some (dirtyPlace (buildTouchEvent (ME := androidMotionEvent) unscrolled e
                         (Some fullHD) initial).1.2).
Proof.
  cbv zeta.
  destruct (calculateCoordinates (ME := androidMotionEvent) unscrolled
              (me_common (mouseMove 900 500 (canvasOf 1 960 540) true false))
              (Some fullHD)) as [toc|] eqn:Hcalc;
    [|vm_compute in Hcalc; discriminate Hcalc].
  destruct (buildTouchEvent_with_ctrl (ME := androidMotionEvent) unscrolled
              (mouseMove 900 500 (canvasOf 1 960 540) true false)
              (Some fullHD) initial toc (mkContext2D (ofZ 1))
              eq_refl Hcalc eq_refl) as (Hact & Hd & _).
  split; [reflexivity|]. split; [reflexivity|]. split; [exact Hact|exact Hd].
Defined.

Lemma getTouch_shape_witness :
  let e := mouseMove 900 500 (canvasOf 1 960 540) true false in
  ∃ touches toc,
    (getTouch (ME := androidMotionEvent) unscrolled e (Some fullHD)
       initial).1.1 = Some touches ∧
    calculateCoordinates (ME := androidMotionEvent) unscrolled (me_common e)
      (Some fullHD) = Some toc ∧
    head touches = Some (touch toc).
Proof.
  cbv zeta.
  destruct (getTouch (ME := androidMotionEvent) unscrolled
              (mouseMove 900 500 (canvasOf 1 960 540) true false)
              (Some fullHD) initial).1.1 as [touches|] eqn:Hget;
    [|vm_compute in Hget; discriminate Hget].
  destruct (getTouch_shape (ME := androidMotionEvent) unscrolled
              (mouseMove 900 500 (canvasOf 1 960 540) true false)
              (Some fullHD) initial touches Hget)
    as (toc & Hcalc & Hshape).
  exists touches, toc. split; [reflexivity|]. split; [exact Hcalc|].
  destruct Hshape as [->|(_ & opp & ->)]; reflexivity.
Defined.

Lemma getTouch_shift_start_witness :
  let e := mouseMove 600 600 (canvasOf 1 1000 1000) true true in
  ctrlKey e = true ∧ shiftKey e = true ∧ multiTouchActive initial = false ∧
  pointsOf (getTouch (ME := androidMotionEvent) unscrolled e
              (Some squareVideo) initial).1.1
  = Some [mkPoint (ofZ 600) (ofZ 600); mkPoint (ofZ 600) (ofZ 600)].
Proof.
  cbv zeta.
  destruct (calculateCoordinates (ME := androidMotionEvent) unscrolled
              (me_common (mouseMove 600 600 (canvasOf 1 1000 1000) true true))
              (Some squareVideo)) as [toc|] eqn:Hcalc;
    [|vm_compute in Hcalc; discriminate Hcalc].
  assert (Htoc := Hcalc). vm_compute in Htoc. injection Htoc as <-.
  rewrite (getTouch_shift_start (ME := androidMotionEvent) unscrolled
             (mouseMove 600 600 (canvasOf 1 1000 1000) true true)
             (Some squareVideo) initial _ eq_refl eq_refl eq_refl Hcalc
             eq_refl eq_refl).
  split; [reflexivity|]. split; [reflexivity|]. split; [reflexivity|].
  vm_compute. num_eq.
Defined.

Lemma formatTouchEvent_dropped_witness :
  let tag := canvasOf 1 960 540 in
  let e := mkTouchEvent "touchforcechange" tag
             [mkDomTouch 5 tag (ofZ 10) (ofZ 10) (ofZ 1)] in
  EVENT_ACTION_MAP (ME := androidMotionEvent) (te_type e) = None ∧
  (te_type e ∉ objectPrototypeNames) ∧
  (formatTouchEvent (ME := androidMotionEvent) unscrolled e (Some fullHD) tag
     initial).1 = None ∧
  (formatTouchEvent (ME := androidMotionEvent) unscrolled
     (mkTouchEvent "touchstart" tag (changedTouches e)) None tag initial).1
  = None.
Proof.
  cbv zeta.
  assert (Hown : "touchforcechange"%string ∉ objectPrototypeNames).
  { unfold objectPrototypeNames. intros Hin.
    repeat (apply elem_of_cons in Hin as [Heq|Hin]; [discriminate Heq|]).
    by apply elem_of_nil in Hin. }
  split; [reflexivity|]. split; [exact Hown|]. split.
  - exact (formatTouchEvent_dropped (ME := androidMotionEvent) unscrolled
             (mkTouchEvent "touchforcechange" (canvasOf 1 960 540)
                [mkDomTouch 5 (canvasOf 1 960 540) (ofZ 10) (ofZ 10) (ofZ 1)])
             (Some fullHD) (canvasOf 1 960 540) initial
             (or_intror (conj eq_refl Hown))).
  - exact (formatTouchEvent_dropped (ME := androidMotionEvent) unscrolled
             (mkTouchEvent "touchstart" (canvasOf 1 960 540)
                [mkDomTouch 5 (canvasOf 1 960 540) (ofZ 10) (ofZ 10) (ofZ 1)])
             None (canvasOf 1 960 540) initial (or_introl eq_refl)).
Defined.

Section HeldContact.

Context {ME : MotionEvent}.

(** X19.  A contact that is already mapped is reported under the pointer id it
    holds: a batch of that one contact, on the given element and mapped to
    a touch, gives one event with that id, the contact's force times 255 as
    pressure and the touch's action, position and buttons. *)
Theorem formatTouchEvent_reports_held_id htmlTag e screenInfo tag st t toc p :
  changedTouches e = [t] →
  elemId (dt_target t) = elemId tag →
  idToPointerMap st !! identifier t = Some p →
  calculateCoordinates htmlTag
    (mkCommon (dt_clientX t) (dt_clientY t) (te_type e) (te_target e) 0)
    screenInfo = Some toc →
  (formatTouchEvent htmlTag e screenInfo tag st).1
  = Some [mkTouchControlEvent (action (touch toc)) p (position (touch toc))
            (force t * ofZ 255)%num (buttons (touch toc))].
Proof.
  intros Hbatch Htag Hid Hcalc.
  unfold formatTouchEvent. rewrite Hbatch.
  change (formatTouches htmlTag e screenInfo tag [t] [] st) with
    (let '(pointerId, st1) := getPointerId (te_type e) (identifier t) st in
     if negb (Nat.eqb (elemId (dt_target t)) (elemId tag))
     then formatTouches htmlTag e screenInfo tag [] [] st1
     else
       match calculateCoordinates htmlTag
               (mkCommon (dt_clientX t) (dt_clientY t) (te_type e)
                  (te_target e) 0) screenInfo with
       | Some (mkTouchOnClient _ (mkTouch action position buttons)) =>
           formatTouches htmlTag e screenInfo tag []
             ([] ++ [mkTouchControlEvent action pointerId position
                       (force t * ofZ 255)%num buttons]) st1
       | None => formatTouches htmlTag e screenInfo tag [] [] st1
       end).
  rewrite (getPointerId_mapped (te_type e) (identifier t) p st Hid).
  rewrite Htag, Nat.eqb_refl, Hcalc.
  by destruct toc as [cl [act pos btn]].
Qed.

End HeldContact.

Lemma formatTouchEvent_reports_held_id_witness :
  let tag := canvasOf 1 960 540 in
  let t := mkDomTouch 41 tag (ofZ 10) (ofZ 20) (ofZ 1) in
  let e := mkTouchEvent "touchmove" tag [t] in
  let st := (getPointerId "touchstart" 41 initial).2 in
  idToPointerMap st !! 41 = Some 0 ∧
  map tce_pointerId <$>
    (formatTouchEvent (ME := androidMotionEvent) unscrolled e (Some fullHD)
       tag st).1 = Some [0].
Proof.
  cbv zeta.
  destruct (calculateCoordinates (ME := androidMotionEvent) unscrolled
              (mkCommon (ofZ 10) (ofZ 20) "touchmove" (canvasOf 1 960 540) 0)
              (Some fullHD)) as [toc|] eqn:Hcalc;
    [|vm_compute in Hcalc; discriminate Hcalc].
  assert (Hid : idToPointerMap (getPointerId "touchstart" 41 initial).2 !! 41
                = Some 0) by (vm_compute; reflexivity).
  split; [exact Hid|].
  rewrite (formatTouchEvent_reports_held_id (ME := androidMotionEvent)
             unscrolled
             (mkTouchEvent "touchmove" (canvasOf 1 960 540)
                [mkDomTouch 41 (canvasOf 1 960 540) (ofZ 10) (ofZ 20) (ofZ 1)])
             (Some fullHD) (canvasOf 1 960 540) _
             (mkDomTouch 41 (canvasOf 1 960 540) (ofZ 10) (ofZ 20) (ofZ 1))
             toc 0 eq_refl eq_refl Hid Hcalc).
  reflexivity.
Defined.

(** ** The centre-anchored opposite in one space *)

Section SameSpace.

Local Open Scope Qc_scope.

(** Taken in one space the mirror image stays in range: a finite point
    within [[0, w] × [0, h]] subtracted from [(w, h)] lies within it
    again. *)
Lemma inScreen_size_minus_point (px py w h : Qc) :
  inScreen (mkPoint (Fin px) (Fin py)) (mkSize (Fin w) (Fin h)) = true →
  inScreen (mkPoint (Fin w - Fin px)%num (Fin h - Fin py)%num)
           (mkSize (Fin w) (Fin h)) = true.
Proof.
  unfold inScreen, JSNum.ge, JSNum.le, JSNum.sub, JSNum.neg, JSNum.add, ofZ.
  cbn [x y width height]. change (Q2Qc (inject_Z 0)) with 0.
  rewrite !andb_true_iff, !bool_decide_eq_true.
  intros [[[Hx1 Hx0] Hy1] Hy0]. repeat split; qc_to_q; lra.
Qed.

End SameSpace.
